(** * Token-classification head over a pretrained encoder (chapter 4) and the
      performance benchmark overrides (chapter 7)

    The development embeds, shallowly, the two pieces of code of the notebooks:

    - [XLMRobertaForTokenClassification] ([__init__] and [forward]) of
      chapter 4, together with the layers of the numerical library it calls
      ([nn.Dropout], [nn.Linear], [nn.CrossEntropyLoss], [Tensor.view]);
    - [compute_size] and [time_pipeline] of the benchmark cell.

    Conventions of the embedding.
    - Float tensors are nested lists of real numbers (batch, token, feature);
      arithmetic is the exact arithmetic of [R], the value [0/0] that the mean
      reduction produces over an empty selection is kept apart as [NaN].
      A statement that a float32 result is finite carries the bound on the
      magnitudes under which float32 does not overflow ([float32_max],
      [magnitudes_within]).
    - Integer tensors (token identifiers, masks, labels) are nested lists of [Z].
    - A Python exception is the [Raise] branch of [result]; it propagates
      through [bind] exactly as an uncaught exception propagates to the caller.
    - The configuration object is shared and mutable in Python: the methods of
      the model run in a state monad whose state is that object.
    - The pretrained encoder and the random draws are not code of the
      notebooks: the encoder is an interface ([RobertaLib]), the random draws
      are explicit arguments. *)

From Stdlib Require Import List ZArith QArith Qreals Reals Lra Lia Bool String.
From Stdlib Require Import Qround Permutation.
From stdpp Require Import gmap strings.
Import ListNotations.

Local Open Scope R_scope.
Local Open Scope nat_scope.

(* ===================================================================== *)
(** * Exceptions *)

Inductive exn : Type :=
| ValueError
| IndexError
| RuntimeError
| TypeError
| OtherError (msg : string).

Inductive result (A : Type) : Type :=
| Ok (a : A)
| Raise (e : exn).
Arguments Ok {A} a.
Arguments Raise {A} e.

Definition bindR {A B} (r : result A) (k : A -> result B) : result B :=
  match r with
  | Ok a => k a
  | Raise e => Raise e
  end.

Global Instance result_ret : MRet result := @Ok.
Global Instance result_bind : MBind result := fun A B k r => bindR r k.

(** [for x in l: ys.append(f(x))] where [f] may raise. *)
Fixpoint mapR {A B} (f : A -> result B) (l : list A) : result (list B) :=
  match l with
  | [] => Ok []
  | x :: l' =>
      match f x with
      | Ok y => match mapR f l' with
                | Ok ys => Ok (y :: ys)
                | Raise e => Raise e
                end
      | Raise e => Raise e
      end
  end.

(* ===================================================================== *)
(** * Tensors *)

Abbreviation tensor1 := (list R).
Abbreviation tensor2 := (list (list R)).
Abbreviation tensor3 := (list (list (list R))).
(** Integer tensors of rank 2: token identifiers, masks, labels. *)
Abbreviation itensor2 := (list (list Z)).

(** A float scalar as the loss returns it: a number, or the [nan] of [0/0]. *)
Inductive scalar : Type :=
| Real (r : R)
| NaN.

Definition has_shape2 {A} (B L : nat) (t : list (list A)) : bool :=
  (length t =? B) && forallb (fun row => length row =? L) t.

Definition has_shape3 (B L C : nat) (t : tensor3) : bool :=
  (length t =? B) && forallb (has_shape2 L C) t.

Definition Rsum (l : list R) : R := fold_right Rplus 0%R l.

(** [chunks n k l]: the first [k] consecutive blocks of [n] elements of [l]. *)
Fixpoint chunks {A} (n k : nat) (l : list A) : list (list A) :=
  match k with
  | 0 => []
  | S k' => firstn n l :: chunks n k' (skipn n l)
  end.

(** Row-major storage of a rank-3 tensor. *)
Definition storage (t : tensor3) : list R := concat (concat t).

(** [t.view(-1, C)] on a contiguous tensor: the row count is inferred from the
    number of elements; it cannot be inferred when [C] is zero, and the number
    of elements must be a multiple of [C]. *)
Definition view_rows (C : nat) (t : tensor3) : result tensor2 :=
  let flat := storage t in
  if C =? 0 then Raise RuntimeError
  else if length flat mod C =? 0
       then Ok (chunks C (length flat / C) flat)
       else Raise RuntimeError.

(** [labels.view(-1)] on a contiguous integer tensor. *)
Definition view_flat (t : itensor2) : list Z := concat t.

(* ===================================================================== *)
(** * nn.Linear *)

Record Linear : Type := {
  in_features : nat;
  out_features : nat;
  weight : list (list R);   (* out_features rows of in_features entries *)
  bias : list R             (* out_features entries *)
}.

(** [nn.Linear(in_features, out_features)]: the entries come from the
    initialiser's random draws [w] and [b]. *)
Definition Linear_new (inf outf : nat) (w : nat -> nat -> R) (b : nat -> R) : Linear :=
  {| in_features := inf;
     out_features := outf;
     weight := map (fun i => map (w i) (seq 0 inf)) (seq 0 outf);
     bias := map b (seq 0 outf) |}.

Definition dot (x w : list R) : R :=
  Rsum (map (fun xw => (fst xw * snd xw)%R) (combine x w)).

(** [x W^T + b] for one vector [x]: one entry per row of [W]. *)
Definition affine (l : Linear) (x : list R) : list R :=
  map (fun wb => (dot x (fst wb) + snd wb)%R) (combine (weight l) (bias l)).

(** One token vector through the layer; the library refuses a vector whose
    length is not [in_features]. *)
Definition Linear_vec (l : Linear) (x : list R) : result (list R) :=
  if length x =? in_features l
  then Ok (affine l x)
  else Raise RuntimeError.

(** The layer acts on the last dimension of its input. *)
Definition Linear_forward (l : Linear) (x : tensor3) : result tensor3 :=
  mapR (mapR (Linear_vec l)) x.

(* ===================================================================== *)
(** * nn.Dropout *)

Record Dropout : Type := {
  p : Q;
  training : bool
}.

(** [nn.Dropout(p)]: a probability outside [0, 1] is refused; a fresh module
    is in training mode. *)
Definition Dropout_new (prob : Q) : result Dropout :=
  if Qle_bool 0 prob && Qle_bool prob 1
  then Ok {| p := prob; training := true |}
  else Raise ValueError.

(** The keep-mask drawn by the random generator, one bit per element. *)
Definition keep_mask := nat -> nat -> nat -> bool.

(** The library returns its input unchanged when [p = 0] or outside training;
    for [p = 1] everything is zeroed; otherwise the kept entries are scaled by
    [1 / (1 - p)] and the others zeroed. *)
Definition Dropout_forward (d : Dropout) (keep : keep_mask) (x : tensor3) : tensor3 :=
  if negb (training d) || Qeq_bool (p d) 0 then x
  else if Qeq_bool (p d) 1 then map (map (map (fun _ => 0%R))) x
  else imap (fun b => imap (fun i => imap (fun j v =>
         if keep b i j then (v * Q2R (1 / (1 - p d)))%R else 0%R))) x.

(** The action of the layer on the token vector at batch index [b] and
    position [i]. *)
Definition Dropout_vec (d : Dropout) (keep : keep_mask) (b i : nat) (h : list R) : list R :=
  if negb (training d) || Qeq_bool (p d) 0 then h
  else if Qeq_bool (p d) 1 then map (fun _ => 0%R) h
  else imap (fun j v => if keep b i j then (v * Q2R (1 / (1 - p d)))%R else 0%R) h.

(* ===================================================================== *)
(** * nn.CrossEntropyLoss *)

Record CrossEntropyLoss : Type := {
  ignore_index : Z
}.

(** [nn.CrossEntropyLoss()]: no class weights, mean reduction, no label
    smoothing, and the default ignore index. *)
Definition CrossEntropyLoss_new : CrossEntropyLoss :=
  {| ignore_index := (-100)%Z |}.

Definition log_softmax (row : list R) : list R :=
  let lse := ln (Rsum (map exp row)) in
  map (fun x => (x - lse)%R) row.

(** Negative log-likelihood of class [c] under the logits [row]. *)
Definition nll (row : list R) (c : nat) : R :=
  (- nth c (log_softmax row) 0)%R.

(** The reduction loop over the flattened positions: an ignored target is
    skipped, a target outside the classes is an error, any other target adds
    its negative log-likelihood to the total and one to the count. *)
Fixpoint nll_accumulate (ig : Z) (rows : tensor2) (targets : list Z)
    (acc : R * nat) : result (R * nat) :=
  match rows, targets with
  | row :: rows', t :: targets' =>
      if (t =? ig)%Z then nll_accumulate ig rows' targets' acc
      else if (0 <=? t)%Z && (t <? Z.of_nat (length row))%Z
      then nll_accumulate ig rows' targets'
             ((fst acc + nll row (Z.to_nat t))%R, S (snd acc))
      else Raise IndexError
  | _, _ => Ok acc
  end.

(** [loss_fct(input, target)] with [input] of shape (N, C) and [target] of
    shape (N): the batch sizes must agree; the mean is taken over the targets
    that are not ignored, and is [nan] when there is none. *)
Definition CrossEntropyLoss_forward (l : CrossEntropyLoss)
    (input : tensor2) (target : list Z) : result scalar :=
  if length input =? length target then
    match nll_accumulate (ignore_index l) input target (0%R, 0) with
    | Ok (total, n) =>
        Ok (match n with
            | 0 => NaN
            | S _ => Real (total / INR n)
            end)
    | Raise e => Raise e
    end
  else Raise ValueError.

(* ===================================================================== *)
(** * The configuration object and the monad of the model's methods *)

(** A value of an attribute the notebooks never read. *)
Inductive pyval : Type :=
| PyInt (z : Z)
| PyFloat (q : Q)
| PyStr (s : string)
| PyBool (b : bool)
| PyNone.

Module config.
Record t : Type := {
  num_labels : nat;
  hidden_dropout_prob : Q;
  hidden_size : nat;
  other_attributes : list (string * pyval)
}.
End config.
Abbreviation XLMRobertaConfig := config.t.

(** A method body: it may raise, and it runs against the shared
    configuration object, which it returns as it leaves it. *)
Definition M (A : Type) : Type := XLMRobertaConfig -> result A * XLMRobertaConfig.

Definition retM {A} (a : A) : M A := fun c => (Ok a, c).

Definition bindM {A B} (m : M A) (k : A -> M B) : M B :=
  fun c =>
    match m c with
    | (Ok a, c') => k a c'
    | (Raise e, c') => (Raise e, c')
    end.

Global Instance M_ret : MRet M := @retM.
Global Instance M_bind : MBind M := fun A B k m => bindM m k.

(** A library call that does not see the configuration object. *)
Definition lift {A} (r : result A) : M A := fun c => (r, c).

(** [config.attr]: an attribute read. *)
Definition getattr {A} (attr : XLMRobertaConfig -> A) : M A := fun c => (Ok (attr c), c).

(* ===================================================================== *)
(** * The encoder body: an interface of the pretrained-model library *)

Module BaseModelOutput.
Record t (Aux : Type) : Type := {
  last_hidden_state : tensor3;
  pooler_output : option tensor2;
  hidden_states : option Aux;
  attentions : option Aux
}.
Arguments last_hidden_state {Aux} _.
Arguments pooler_output {Aux} _.
Arguments hidden_states {Aux} _.
Arguments attentions {Aux} _.

(** An element of the output seen as a tuple. *)
Inductive item (Aux : Type) : Type :=
| Hidden (h : tensor3)
| Pooled (v : tensor2)
| Opaque (a : Aux).
Arguments Hidden {Aux} h.
Arguments Pooled {Aux} v.
Arguments Opaque {Aux} a.

(** [to_tuple()]: the fields that are not [None], in declaration order. *)
Definition to_tuple {Aux} (o : t Aux) : list (item Aux) :=
  Hidden (last_hidden_state o)
  :: option_list (Pooled <$> pooler_output o)
  ++ option_list (Opaque <$> hidden_states o)
  ++ option_list (Opaque <$> attentions o).

(** [outputs[i]]. *)
Definition getitem {Aux} (o : t Aux) (i : nat) : result (item Aux) :=
  match to_tuple o !! i with
  | Some x => Ok x
  | None => Raise IndexError
  end.
End BaseModelOutput.

Class RobertaLib : Type := {
  (** an instance of the encoder body *)
  RobertaModel : Type;
  (** the keyword arguments passed through to the body *)
  Kwargs : Type;
  (** the hidden-state and attention data the body chooses to expose *)
  Aux : Type;
  (** the random draws the body consumes (its own dropout, its initialiser) *)
  Draw : Type;
  (** [super().__init__(config)] *)
  PreTrainedModel_init : M ();
  (** [RobertaModel(config, add_pooling_layer=...)] *)
  RobertaModel_new : bool -> M RobertaModel;
  (** the part of [init_weights()] that concerns the body *)
  RobertaModel_init_weights : RobertaModel -> Draw -> M RobertaModel;
  (** [self.roberta(input_ids, attention_mask=..., token_type_ids=..., **kwargs)] *)
  RobertaModel_forward :
    RobertaModel -> Draw -> option itensor2 -> option itensor2 -> option itensor2 ->
    Kwargs -> M (BaseModelOutput.t Aux);
  (** the width of the hidden vectors an instance produces *)
  RobertaModel_hidden_size : RobertaModel -> nat
}.

(* ===================================================================== *)
(** * XLMRobertaForTokenClassification *)

Module TokenClassifierOutput.
Record t (Aux : Type) : Type := {
  loss : option scalar;
  logits : tensor3;
  hidden_states : option Aux;
  attentions : option Aux
}.
Arguments loss {Aux} _.
Arguments logits {Aux} _.
Arguments hidden_states {Aux} _.
Arguments attentions {Aux} _.
End TokenClassifierOutput.

Section Model.
Context {lib : RobertaLib}.

Record XLMRobertaForTokenClassification : Type := {
  num_labels : nat;
  roberta : RobertaModel;
  dropout : Dropout;
  classifier : Linear
}.

(** The random draws of one construction. *)
Record init_draws : Type := {
  linear_weight_draw : nat -> nat -> R;   (* nn.Linear's own initialiser *)
  linear_bias_draw : nat -> R;
  head_weight_draw : nat -> nat -> R;     (* init_weights() on the head *)
  body_draw : Draw                        (* init_weights() on the body *)
}.

(** [init_weights()]: every linear layer gets fresh normal weights and a
    zero bias, of the shape it already has; the body is initialised by the
    library. *)
Definition init_weights (self : XLMRobertaForTokenClassification)
    (d : init_draws) : M XLMRobertaForTokenClassification :=
  body ← RobertaModel_init_weights (roberta self) (body_draw d);
  let c := classifier self in
  mret {| num_labels := num_labels self;
          roberta := body;
          dropout := dropout self;
          classifier :=
            Linear_new (in_features c) (out_features c)
                       (head_weight_draw d) (fun _ => 0%R) |}.

Definition __init__ (d : init_draws) : M XLMRobertaForTokenClassification :=
  _ ← PreTrainedModel_init;
  self_num_labels ← getattr config.num_labels;
  (* Load model body *)
  self_roberta ← RobertaModel_new false;
  (* Set up token classification head *)
  prob ← getattr config.hidden_dropout_prob;
  self_dropout ← lift (Dropout_new prob);
  hidden ← getattr config.hidden_size;
  labels ← getattr config.num_labels;
  let self_classifier :=
    Linear_new hidden labels (linear_weight_draw d) (linear_bias_draw d) in
  (* Load and initialize weights *)
  init_weights {| num_labels := self_num_labels;
                  roberta := self_roberta;
                  dropout := self_dropout;
                  classifier := self_classifier |} d.

Definition forward (self : XLMRobertaForTokenClassification)
    (draw : Draw) (keep : keep_mask)
    (input_ids attention_mask token_type_ids labels : option itensor2)
    (kwargs : Kwargs) : M (TokenClassifierOutput.t Aux) :=
  (* Use model body to get encoder representations *)
  outputs ← RobertaModel_forward (roberta self) draw
              input_ids attention_mask token_type_ids kwargs;
  (* Apply classifier to encoder representation *)
  outputs_0 ← lift (BaseModelOutput.getitem outputs 0);
  match outputs_0 with
  | BaseModelOutput.Hidden h =>
      let sequence_output := Dropout_forward (dropout self) keep h in
      logits ← lift (Linear_forward (classifier self) sequence_output);
      (* Calculate losses *)
      loss ← match labels with
             | None => mret None
             | Some labels =>
                 let loss_fct := CrossEntropyLoss_new in
                 input ← lift (view_rows (num_labels self) logits);
                 l ← lift (CrossEntropyLoss_forward loss_fct input (view_flat labels));
                 mret (Some l)
             end;
      (* Return model output object *)
      mret {| TokenClassifierOutput.loss := loss;
              TokenClassifierOutput.logits := logits;
              TokenClassifierOutput.hidden_states := BaseModelOutput.hidden_states outputs;
              TokenClassifierOutput.attentions := BaseModelOutput.attentions outputs |}
  | _ => lift (Raise TypeError)
  end.
End Model.

(* ===================================================================== *)
(** * The performance benchmark overrides *)

Module Benchmark.

(** What the methods print. *)
Inductive line : Type :=
| ModelSizeLine (size_mb : R)
| AverageLatencyLine (time_avg_ms time_std_ms : R).

(** The part of the machine the two methods touch: the files of the working
    directory, the standard output, the performance counter, and the log of
    the queries the pipeline was run on (oldest first). *)
Record world : Type := {
  files : gmap string (list Byte.byte);
  stdout : list line;
  counter : R;
  runs : list string
}.

Definition W (A : Type) : Type := world -> result A * world.

Definition retW {A} (a : A) : W A := fun w => (Ok a, w).

Definition bindW {A B} (m : W A) (k : A -> W B) : W B :=
  fun w =>
    match m w with
    | (Ok a, w') => k a w'
    | (Raise e, w') => (Raise e, w')
    end.

Global Instance W_ret : MRet W := @retW.
Global Instance W_bind : MBind W := fun A B k m => bindW m k.

(** The collaborators of the benchmark: the model behind the pipeline, the
    serialiser, and the time each run of the pipeline takes (the [n]-th run
    since the log was started, on a given query). *)
Class BenchLib : Type := {
  Model : Type;
  StateDict : Type;
  state_dict : Model -> StateDict;
  torch_save_bytes : StateDict -> list Byte.byte;
  run_time : nat -> string -> R
}.

Section Methods.
Context {lib : BenchLib}.

Record Pipeline : Type := { model : Model }.
Record PerformanceBenchmark : Type := { pipeline : Pipeline }.

(** [torch.save(obj, path)]: creates or overwrites the file. *)
Definition torch_save (obj : StateDict) (path : string) : W () :=
  fun w => (Ok (),
            {| files := <[path := torch_save_bytes obj]> (files w);
               stdout := stdout w; counter := counter w; runs := runs w |}).

(** [Path(path).stat().st_size]: the file must exist. *)
Definition stat_st_size (path : string) : W nat :=
  fun w => match files w !! path with
           | Some bytes => (Ok (length bytes), w)
           | None => (Raise (OtherError "FileNotFoundError"), w)
           end.

(** [path.unlink()]: the file must exist. *)
Definition unlink (path : string) : W () :=
  fun w => match files w !! path with
           | Some _ =>
               (Ok (),
                {| files := delete path (files w);
                   stdout := stdout w; counter := counter w; runs := runs w |})
           | None => (Raise (OtherError "FileNotFoundError"), w)
           end.

Definition print (l : line) : W () :=
  fun w => (Ok (),
            {| files := files w; stdout := stdout w ++ [l];
               counter := counter w; runs := runs w |}).

Definition perf_counter : W R := fun w => (Ok (counter w), w).

(** [self.pipeline(query)]: the run is logged and the counter advances by
    the time the run takes. *)
Definition call_pipeline (self : PerformanceBenchmark) (query : string) : W () :=
  fun w => (Ok (),
            {| files := files w; stdout := stdout w;
               counter := (counter w + run_time (length (runs w)) query)%R;
               runs := runs w ++ [query] |}).

Definition compute_size (self : PerformanceBenchmark) : W (gmap string R) :=
  let sd := state_dict (model (pipeline self)) in
  let tmp_path := "model.pt"%string in
  _ ← torch_save sd tmp_path;
  (* Calculate size in megabytes *)
  st_size ← stat_st_size tmp_path;
  let size_mb := (INR st_size / (1024 * 1024))%R in
  (* Delete temporary file *)
  _ ← unlink tmp_path;
  _ ← print (ModelSizeLine size_mb);
  mret {[ "size_mb"%string := size_mb ]}.

Definition np_mean (a : list R) : R := (Rsum a / INR (length a))%R.

Definition np_std (a : list R) : R :=
  sqrt (np_mean (map (fun x => ((x - np_mean a) * (x - np_mean a))%R) a)).

(** [for _ in range(n): _ = self.pipeline(query)] *)
Fixpoint warmup (self : PerformanceBenchmark) (query : string) (n : nat) : W () :=
  match n with
  | 0 => mret ()
  | S n' => _ ← call_pipeline self query; warmup self query n'
  end.

(** The timed loop; [latencies] is the list being appended to. *)
Fixpoint timed_run (self : PerformanceBenchmark) (query : string) (n : nat)
    (latencies : list R) : W (list R) :=
  match n with
  | 0 => mret latencies
  | S n' =>
      start_time ← perf_counter;
      _ ← call_pipeline self query;
      end_time ← perf_counter;
      let latency := (end_time - start_time)%R in
      timed_run self query n' (latencies ++ [latency])
  end.

Definition default_query : string := "What is the pin number for my account?".

Definition time_pipeline (self : PerformanceBenchmark) (query : option string)
    : W (gmap string R) :=
  let query := default default_query query in
  let latencies := [] in
  (* Warmup *)
  _ ← warmup self query 10;
  (* Timed run *)
  latencies ← timed_run self query 100 latencies;
  (* Compute run statistics *)
  let time_avg_ms := (1000 * np_mean latencies)%R in
  let time_std_ms := (1000 * np_std latencies)%R in
  _ ← print (AverageLatencyLine time_avg_ms time_std_ms);
  mret (<[ "time_avg_ms"%string := time_avg_ms ]>
          {[ "time_std_ms"%string := time_std_ms ]}).
End Methods.
End Benchmark.

(* ===================================================================== *)
(** * Well-formedness of the layers and of the model *)

(** The parameter tensors of a linear layer have the shapes its two sizes
    announce. Training changes the entries, never the shapes. *)
Definition linear_ok (l : Linear) : bool :=
  has_shape2 (out_features l) (in_features l) (weight l)
  && (length (bias l) =? out_features l).

(** The head fits the body and the label count. *)
Definition model_ok {lib : RobertaLib} (self : XLMRobertaForTokenClassification) : bool :=
  linear_ok (classifier self)
  && (out_features (classifier self) =? num_labels self)
  && (in_features (classifier self) =? RobertaModel_hidden_size (roberta self)).

(** The contract of the encoder body on a batch of [B] sequences of [L]
    tokens: one hidden vector of the instance's width per token. *)
Definition encoder_shape_contract {lib : RobertaLib} : Prop :=
  forall (body : RobertaModel) (draw : Draw) (ids : itensor2) mask tt
         (kwargs : Kwargs) (c c' : XLMRobertaConfig)
         (outputs : BaseModelOutput.t Aux) (B L : nat),
    RobertaModel_forward body draw (Some ids) mask tt kwargs c = (Ok outputs, c') ->
    has_shape2 B L ids = true ->
    has_shape3 B L (RobertaModel_hidden_size body)
      (BaseModelOutput.last_hidden_state outputs) = true.

(** [setattr(config, name, v)] for an attribute the notebooks never read. *)
Definition config_setattr (name : string) (v : pyval) (c : XLMRobertaConfig)
    : XLMRobertaConfig :=
  {| config.num_labels := config.num_labels c;
     config.hidden_dropout_prob := config.hidden_dropout_prob c;
     config.hidden_size := config.hidden_size c;
     config.other_attributes :=
       (name, v)
       :: List.filter (fun kv => negb (String.eqb (fst kv) name))
                      (config.other_attributes c) |}.

(** Every library call keeps the property [P] of the configuration object. *)
Definition library_preserves {lib : RobertaLib} (P : XLMRobertaConfig -> Prop) : Prop :=
  (forall c, P c -> P (snd (PreTrainedModel_init c)))
  /\ (forall add_pooling_layer c, P c -> P (snd (RobertaModel_new add_pooling_layer c)))
  /\ (forall body (draw : Draw) c,
        P c -> P (snd (RobertaModel_init_weights body draw c)))
  /\ (forall body (draw : Draw) ids mask tt (kwargs : Kwargs) c,
        P c -> P (snd (RobertaModel_forward body draw ids mask tt kwargs c))).

(** The three attributes the model reads have in [c] the values they have in
    [c0]. *)
Definition same_hyperparameters (c0 c : XLMRobertaConfig) : Prop :=
  config.num_labels c = config.num_labels c0
  /\ config.hidden_dropout_prob c = config.hidden_dropout_prob c0
  /\ config.hidden_size c = config.hidden_size c0.

(** The library calls never change the three attributes the model reads;
    they may record attributes of their own in the configuration object. *)
Definition library_keeps_hyperparameters {lib : RobertaLib} : Prop :=
  forall c0, library_preserves (same_hyperparameters c0).

(** The width of the hidden vectors of a body is the hidden size of the
    configuration it was built from, and initialising its weights keeps it. *)
Definition encoder_init_contract {lib : RobertaLib} : Prop :=
  (forall add_pooling_layer (c c' : XLMRobertaConfig) body,
      RobertaModel_new add_pooling_layer c = (Ok body, c') ->
      RobertaModel_hidden_size body = config.hidden_size c)
  /\ (forall body (draw : Draw) (c c' : XLMRobertaConfig) body',
        RobertaModel_init_weights body draw c = (Ok body', c') ->
        RobertaModel_hidden_size body' = RobertaModel_hidden_size body).

(** Every label is the ignore index or a class index. *)
Definition labels_in_range (C : nat) (labels : itensor2) : bool :=
  forallb (fun t => (t =? -100)%Z || ((0 <=? t)%Z && (t <? Z.of_nat C)%Z))
          (view_flat labels).

(** The token vector at batch index [b] and position [i]. *)
Definition token_at (t : tensor3) (b i : nat) : option (list R) :=
  row ← t !! b; row !! i.

(** The flattened positions that enter the loss: the logits row and the label
    of each position whose label is not the ignore index. *)
Definition kept_positions (rows : tensor2) (targets : list Z) : list (list R * Z) :=
  filter (fun rt => snd rt ≠ (-100)%Z) (zip rows targets).

(** The mean negative log-likelihood over a list of positions. *)
Definition mean_nll (kept : list (list R * Z)) : scalar :=
  match kept with
  | [] => NaN
  | _ :: _ =>
      Real (Rsum (map (fun rt => nll (fst rt) (Z.to_nat (snd rt))) kept)
            / INR (length kept))
  end.

(** The largest finite number of the float32 format, (2 - 2^-23) * 2^127. *)
Definition float32_max : R := 340282346638528859811704183484516925440%R.

(** The magnitudes that the linear layer adds up for each logit of the
    vector [x] stay within [M]: the products of the entries of [x] with the
    weights of the class, and the bias of the class. *)
Definition magnitudes_within (M : R) (l : Linear) (x : list R) : Prop :=
  Forall (fun wb =>
            (Rsum (map (fun xw => Rabs (fst xw * snd xw)) (combine x (fst wb)))
             + Rabs (snd wb) <= M)%R)
         (combine (weight l) (bias l)).

(* ===================================================================== *)
(** * A small concrete encoder, model and benchmark, to run the code on *)

Record toy_body : Type := {
  toy_hidden : nat;
  toy_pooling : bool
}.

(** Every token is encoded as the first unit vector. *)
Definition toy_vector (n : nat) : list R :=
  map (fun j => if j =? 0 then 1%R else 0%R) (seq 0 n).

Definition toy_forward (body : toy_body) (_ : ())
    (input_ids attention_mask token_type_ids : option itensor2) (_ : ())
    : M (BaseModelOutput.t ()) :=
  match input_ids with
  | Some ids =>
      mret {| BaseModelOutput.last_hidden_state :=
                map (map (fun _ => toy_vector (toy_hidden body))) ids;
              BaseModelOutput.pooler_output :=
                if toy_pooling body
                then Some (map (fun _ => toy_vector (toy_hidden body)) ids)
                else None;
              BaseModelOutput.hidden_states := None;
              BaseModelOutput.attentions := None |}
  | None => lift (Raise ValueError)
  end.

Definition toy_lib : RobertaLib :=
  {| RobertaModel := toy_body;
     Kwargs := ();
     Aux := ();
     Draw := ();
     PreTrainedModel_init := mret ();
     RobertaModel_new := fun add_pooling_layer =>
       hidden ← getattr config.hidden_size;
       mret {| toy_hidden := hidden; toy_pooling := add_pooling_layer |};
     RobertaModel_init_weights := fun body _ => mret body;
     RobertaModel_forward := toy_forward;
     RobertaModel_hidden_size := toy_hidden |}.

Definition toy_config : XLMRobertaConfig :=
  {| config.num_labels := 7;
     config.hidden_dropout_prob := 0;
     config.hidden_size := 2;
     config.other_attributes := [] |}.

Definition toy_draws : @init_draws toy_lib :=
  @Build_init_draws toy_lib
    (fun _ _ => 0%R)
    (fun _ => 0%R)
    (fun i j => if (i =? 0) && (j =? 0) then 1%R else 0%R)
    ().

(** The model [__init__] builds from [toy_config] and [toy_draws]. *)
Definition toy_model : @XLMRobertaForTokenClassification toy_lib :=
  @Build_XLMRobertaForTokenClassification toy_lib
    7
    {| toy_hidden := 2; toy_pooling := false |}
    {| p := 0; training := true |}
    (Linear_new 2 7 (head_weight_draw toy_draws) (fun _ => 0%R)).

(** A library that treats the configuration object as the pretrained-model
    library does: the base-class initialiser and the body constructor record
    the attention implementation in a private attribute of it. Everything else
    is as in [toy_lib]. *)
Definition record_attn_implementation : M () :=
  fun c => (Ok (), config_setattr "_attn_implementation_internal" (PyStr "sdpa") c).

Definition recording_lib : RobertaLib :=
  {| RobertaModel := toy_body;
     Kwargs := ();
     Aux := ();
     Draw := ();
     PreTrainedModel_init := record_attn_implementation;
     RobertaModel_new := fun add_pooling_layer =>
       _ ← record_attn_implementation;
       hidden ← getattr config.hidden_size;
       mret {| toy_hidden := hidden; toy_pooling := add_pooling_layer |};
     RobertaModel_init_weights := fun body _ => mret body;
     RobertaModel_forward := toy_forward;
     RobertaModel_hidden_size := toy_hidden |}.

Definition recording_draws : @init_draws recording_lib :=
  @Build_init_draws recording_lib
    (fun _ _ => 0%R)
    (fun _ => 0%R)
    (fun i j => if (i =? 0) && (j =? 0) then 1%R else 0%R)
    ().

(** The model [__init__] builds from [toy_config] over [recording_lib], and
    the configuration object as that construction leaves it. *)
Definition recording_model : @XLMRobertaForTokenClassification recording_lib :=
  @Build_XLMRobertaForTokenClassification recording_lib
    7
    {| toy_hidden := 2; toy_pooling := false |}
    {| p := 0; training := true |}
    (Linear_new 2 7 (head_weight_draw recording_draws) (fun _ => 0%R)).

Definition toy_config_recorded : XLMRobertaConfig :=
  config_setattr "_attn_implementation_internal" (PyStr "sdpa") toy_config.

Definition toy_ids : itensor2 := [[101; 2045; 2003; 102]]%Z.
Definition toy_mask : itensor2 := [[1; 1; 1; 1]]%Z.
Definition toy_labels : itensor2 := [[-100; 3; 5; -100]]%Z.
Definition all_kept : keep_mask := fun _ _ _ => true.
Definition none_kept : keep_mask := fun _ _ _ => false.

Definition toy_bench : Benchmark.BenchLib :=
  {| Benchmark.Model := ();
     Benchmark.StateDict := ();
     Benchmark.state_dict := fun _ => ();
     Benchmark.torch_save_bytes := fun _ => [Byte.x50; Byte.x4b];
     Benchmark.run_time := fun n _ => INR n |}.

Definition toy_benchmark : @Benchmark.PerformanceBenchmark toy_bench :=
  @Benchmark.Build_PerformanceBenchmark toy_bench
    (@Benchmark.Build_Pipeline toy_bench ()).

Definition empty_world : Benchmark.world :=
  {| Benchmark.files := ∅;
     Benchmark.stdout := [];
     Benchmark.counter := 0%R;
     Benchmark.runs := [] |}.

(** A working directory that already holds a file named like the temporary
    file. *)
Definition world_with_model_pt : Benchmark.world :=
  {| Benchmark.files := {[ "model.pt"%string := [Byte.x00] ]};
     Benchmark.stdout := [];
     Benchmark.counter := 0%R;
     Benchmark.runs := [] |}.

(* ===================================================================== *)
(** * The multilingual corpus cells of chapter 4 *)

Module PanX.

(** A state-and-exception monad over a state [S]: the cells act on the
    global dictionary [panx_ch]. *)
Definition P (S A : Type) : Type := S -> result A * S.

Definition retP {S A} (a : A) : P S A := fun s => (Ok a, s).

Definition bindP {S A B} (m : P S A) (k : A -> P S B) : P S B :=
  fun s =>
    match m s with
    | (Ok a, s') => k a s'
    | (Raise e, s') => (Raise e, s')
    end.

Global Instance P_ret {S} : MRet (P S) := @retP S.
Global Instance P_bind {S} : MBind (P S) := fun A B k m => bindP m k.

Definition liftP {S A} (r : result A) : P S A := fun s => (r, s).

(** [s.startswith(prefix)] *)
Definition startswith (s prefix : string) : bool := String.prefix prefix s.

(** [[s for s in xtreme_subsets if s.startswith("PAN")]] *)
Definition panx_subsets (xtreme_subsets : list string) : list string :=
  List.filter (fun s => startswith s "PAN") xtreme_subsets.

(** [l[:n]] *)
Definition slice_to {A} (n : nat) (l : list A) : list A := firstn n l.

(** An insertion-ordered dictionary with string keys. *)
Abbreviation dict V := (list (string * V)).

(** [d.get(k)] *)
Fixpoint dict_get {V} (d : dict V) (k : string) : option V :=
  match d with
  | [] => None
  | (k', v) :: d' => if String.eqb k' k then Some v else dict_get d' k
  end.

(** [d[k] = v]: an existing key keeps its place, a new key goes last. *)
Fixpoint dict_set {V} (d : dict V) (k : string) (v : V) : dict V :=
  match d with
  | [] => [(k, v)]
  | (k', v') :: d' =>
      if String.eqb k' k then (k, v) :: d' else (k', v') :: dict_set d' k v
  end.

(** [d[k]] *)
Definition dict_getitem {V} (d : dict V) (k : string) : result V :=
  match dict_get d k with
  | Some v => Ok v
  | None => Raise (OtherError "KeyError")
  end.

(** The keys, in iteration order. *)
Definition dict_keys {V} (d : dict V) : list string := map fst d.

(** [int(x)] on a number: truncation towards zero. *)
Definition int_of (x : Q) : Z := Z.quot (Qnum x) (Z.pos (Qden x)).

(** [range(n)] *)
Definition range (n : Z) : list nat := seq 0 (Z.to_nat n).

(** The collaborators of the cells: the rows of a dataset, the corpus
    loader, and the shuffle of the dataset library. *)
Class DatasetsLib : Type := {
  Row : Type;
  load_dataset : string -> string -> result (dict (list Row));
  shuffle : Z -> list Row -> list Row
}.

(** A dataset is the list of its rows; a [DatasetDict] is a dictionary from
    split names to datasets; [panx_ch] maps language codes to [DatasetDict]s. *)
Abbreviation panx := (gmap string (dict (list Row))).

Section Cells.
Context {lib : DatasetsLib}.

Definition num_rows (d : list Row) : Z := Z.of_nat (length d).

(** [d.select(indices)]: an index past the end is refused. *)
Definition select (indices : list nat) (d : list Row) : result (list Row) :=
  mapR (fun i => match d !! i with
                 | Some row => Ok row
                 | None => Raise IndexError
                 end) indices.

(** [panx_ch[lang]] on a [defaultdict(DatasetDict)]: a missing key is
    created with an empty [DatasetDict]. *)
Definition panx_getitem (lang : string) : P panx (dict (list Row)) :=
  fun ch =>
    match ch !! lang with
    | Some dd => (Ok dd, ch)
    | None => (Ok [], <[lang := []]> ch)
    end.

(** The [DatasetDict] held under [lang] is updated in place. *)
Definition panx_update (lang : string) (dd : dict (list Row)) : P panx () :=
  fun ch => (Ok (), <[lang := dd]> ch).

(** [panx_ch[lang][split] = v] *)
Definition panx_setitem (lang split : string) (v : list Row) : P panx () :=
  dd ← panx_getitem lang;
  panx_update lang (dict_set dd split v).

(** [ds[split].shuffle(seed=0).select(range(int(frac * ds[split].num_rows)))] *)
Definition downsample (ds : dict (list Row)) (split : string) (frac : Q)
    : result (list Row) :=
  d ← dict_getitem ds split;
  let shuffled := shuffle 0 d in
  d' ← dict_getitem ds split;
  select (range (int_of (frac * inject_Z (num_rows d')))) shuffled.

(** [panx_ch[lang][split]] when both keys are there. *)
Definition panx_lookup (ch : panx) (lang split : string) : option (list Row) :=
  dd ← ch !! lang; dict_get dd split.

(** The shuffle of the library rearranges the rows of the dataset. *)
Definition shuffle_contract : Prop :=
  forall (seed : Z) (d : list Row), Permutation (shuffle seed d) d.

(** The first [int(frac * num_rows)] rows of the shuffled dataset. *)
Definition downsampled (frac : Q) (d : list Row) : list Row :=
  firstn (Z.to_nat (int_of (frac * inject_Z (num_rows d)))) (shuffle 0 d).

(** [for split in ds: panx_ch[lang][split] = ...], over the keys still to
    visit. *)
Fixpoint for_splits (lang : string) (frac : Q) (ds : dict (list Row))
    (splits : list string) : P panx () :=
  match splits with
  | [] => mret ()
  | split :: splits' =>
      v ← liftP (downsample ds split frac);
      _ ← panx_setitem lang split v;
      for_splits lang frac ds splits'
  end.

(** [for lang, frac in zip(langs, fracs): ...], over the pairs still to
    visit. *)
Fixpoint for_langs (pairs : list (string * Q)) : P panx () :=
  match pairs with
  | [] => mret ()
  | (lang, frac) :: pairs' =>
      (* Load monolingual corpus *)
      ds ← liftP (load_dataset "xtreme" ("PAN-X." ++ lang));
      (* Shuffle and downsample each split according to spoken proportion *)
      _ ← for_splits lang frac ds (dict_keys ds);
      for_langs pairs'
  end.

Definition langs : list string := ["de"; "fr"; "it"; "en"]%string.
(** The proportions are the decimal numbers of the source, as exact
    fractions; their products with row counts are exact as well. *)
Definition fracs : list Q := [629 # 1000; 229 # 1000; 84 # 1000; 59 # 1000]%Q.

(** The cell that builds [panx_ch], starting from an empty
    [defaultdict(DatasetDict)]. *)
Definition build_panx_ch : P panx () :=
  fun _ => for_langs (combine langs fracs) ∅.

(** [{lang: [panx_ch[lang]["train"].num_rows] for lang in langs}], over the
    languages still to visit; [acc] is the dictionary being built. *)
Fixpoint training_rows (ls : list string) (acc : dict (list Z))
    : P panx (dict (list Z)) :=
  match ls with
  | [] => mret acc
  | lang :: ls' =>
      dd ← panx_getitem lang;
      train ← liftP (dict_getitem dd "train");
      training_rows ls' (dict_set acc lang [num_rows train])
  end.

(** A data frame: its row labels and its columns. *)
Record DataFrame : Type := {
  index : list string;
  columns : dict (list Z)
}.

(** [pd.DataFrame({...}, index=["Number of training examples"])] *)
Definition training_examples_table : P panx DataFrame :=
  data ← training_rows langs [];
  mret {| index := ["Number of training examples"%string]; columns := data |}.
End Cells.
End PanX.

(** A small dataset library: rows are numbers, the shuffle reverses. *)
Definition toy_datasets : PanX.DatasetsLib :=
  {| PanX.Row := nat;
     PanX.load_dataset := fun path name =>
       if String.eqb path "xtreme"
       then Ok [("train"%string, seq 0 10); ("test"%string, seq 100 5)]
       else Raise (OtherError "FileNotFoundError");
     PanX.shuffle := fun _ d => rev d |}.

(** A dataset library whose loader fails on the French corpus. *)
Definition toy_datasets_no_fr : PanX.DatasetsLib :=
  {| PanX.Row := nat;
     PanX.load_dataset := fun path name =>
       if String.eqb name "PAN-X.fr"
       then Raise (OtherError "ConnectionError")
       else Ok [("train"%string, seq 0 10)];
     PanX.shuffle := fun _ d => rev d |}.

(** [toy_model] is what construction returns on [toy_config]. *)
Lemma toy_init :
  @__init__ toy_lib toy_draws toy_config = (Ok toy_model, toy_config).
Proof. reflexivity. Qed.

(* ===================================================================== *)
(** * Lists, shapes and views *)

Lemma has_shape2_spec {A} (B L : nat) (t : list (list A)) :
  has_shape2 B L t = true <-> length t = B /\ Forall (fun row => length row = L) t.
Proof.
  unfold has_shape2. rewrite andb_true_iff, Nat.eqb_eq, forallb_forall, Forall_forall.
  split; intros [HB HL]; split; auto; intros row Hrow.
  - apply Nat.eqb_eq, HL. now apply list_elem_of_In.
  - apply Nat.eqb_eq, HL. now apply list_elem_of_In.
Qed.

Lemma has_shape3_spec (B L C : nat) (t : tensor3) :
  has_shape3 B L C t = true <->
  length t = B /\ Forall (fun m => has_shape2 L C m = true) t.
Proof.
  unfold has_shape3. rewrite andb_true_iff, Nat.eqb_eq, forallb_forall, Forall_forall.
  split; intros [HB HL]; split; auto; intros m Hm.
  - apply HL. now apply list_elem_of_In.
  - apply HL. now apply list_elem_of_In.
Qed.

Lemma length_concat_uniform {A} (n : nat) (rows : list (list A)) :
  Forall (fun row => length row = n) rows ->
  length (concat rows) = length rows * n.
Proof.
  induction 1 as [|row rows Hrow _ IH]; simpl; [reflexivity|].
  rewrite length_app, IH, Hrow. reflexivity.
Qed.

Lemma chunks_concat {A} (n : nat) (rows : list (list A)) :
  Forall (fun row => length row = n) rows ->
  chunks n (length rows) (concat rows) = rows.
Proof.
  induction 1 as [|row rows Hrow _ IH]; simpl; [reflexivity|].
  subst n. rewrite take_app_length, drop_app_length.
  f_equal. exact IH.
Qed.

(** Flattening the two leading dimensions of a (B, L, C) tensor. *)
Lemma concat_shape (B L C : nat) (t : tensor3) :
  has_shape3 B L C t = true -> has_shape2 (B * L) C (concat t) = true.
Proof.
  rewrite has_shape3_spec, has_shape2_spec. intros [HB Ht]. subst B.
  induction Ht as [|m t Hm _ [IHlen IHall]]; simpl; [split; [reflexivity|constructor]|].
  apply has_shape2_spec in Hm. destruct Hm as [Hlen Hall].
  split.
  - rewrite length_app, IHlen, Hlen. reflexivity.
  - apply Forall_app. split; assumption.
Qed.

(** On a tensor of shape (B, L, C) with [C] positive, [view(-1, C)] is the
    list of the token rows. *)
Lemma view_rows_ok (B L C : nat) (t : tensor3) :
  has_shape3 B L C t = true -> C <> 0 -> view_rows C t = Ok (concat t).
Proof.
  intros Ht HC. apply concat_shape, has_shape2_spec in Ht. destruct Ht as [Hlen Hall].
  unfold view_rows, storage.
  rewrite (length_concat_uniform C (concat t) Hall).
  destruct (Nat.eqb_spec C 0) as [|_]; [contradiction|].
  rewrite Nat.Div0.mod_mul, Nat.div_mul by assumption. simpl.
  now rewrite chunks_concat.
Qed.

Lemma view_rows_zero (t : tensor3) : view_rows 0 t = Raise RuntimeError.
Proof. reflexivity. Qed.

(* ===================================================================== *)
(** * The layers *)

Lemma mapR_ok_map {A B} (test : A -> bool) (g : A -> B) (l : list A) (l' : list B) :
  mapR (fun x => if test x then Ok (g x) else Raise RuntimeError) l = Ok l' ->
  l' = map g l /\ Forall (fun x => test x = true) l.
Proof.
  revert l'. induction l as [|x l IH]; simpl; intros l' H.
  - inversion H. split; [reflexivity|constructor].
  - destruct (test x) eqn:Hx; [|discriminate].
    destruct (mapR _ l) as [ys|e] eqn:Hl; [|discriminate].
    inversion H; subst. destruct (IH ys eq_refl) as [-> Hall].
    split; [reflexivity|constructor; assumption].
Qed.

Lemma mapR_total_map {A B} (test : A -> bool) (g : A -> B) (l : list A) :
  Forall (fun x => test x = true) l ->
  mapR (fun x => if test x then Ok (g x) else Raise RuntimeError) l = Ok (map g l).
Proof.
  induction 1 as [|x l Hx _ IH]; simpl; [reflexivity|].
  now rewrite Hx, IH.
Qed.

Lemma mapR_ok_ext {A B} (f : A -> result B) (g : A -> B) (l : list A) (l' : list B) :
  (forall x y, f x = Ok y -> y = g x) ->
  mapR f l = Ok l' -> l' = map g l.
Proof.
  intros Hf. revert l'. induction l as [|x l IH]; simpl; intros l' H.
  - now inversion H.
  - destruct (f x) as [y|e] eqn:Hx; [|discriminate].
    destruct (mapR f l) as [ys|e] eqn:Hl; [|discriminate].
    inversion H; subst. f_equal; [now apply Hf | now apply IH].
Qed.

Lemma mapR_total_ext {A B} (f : A -> result B) (g : A -> B) (l : list A) :
  Forall (fun x => f x = Ok (g x)) l -> mapR f l = Ok (map g l).
Proof.
  induction 1 as [|x l Hx _ IH]; simpl; [reflexivity|].
  now rewrite Hx, IH.
Qed.

(** When the layer returns, it has applied [affine] to every token vector. *)
Lemma Linear_forward_ok (l : Linear) (x y : tensor3) :
  Linear_forward l x = Ok y -> y = map (map (affine l)) x.
Proof.
  unfold Linear_forward. apply mapR_ok_ext. intros row row'.
  apply mapR_ok_ext. intros h h'. unfold Linear_vec.
  destruct (length h =? in_features l); [|discriminate].
  now inversion 1.
Qed.

(** The layer returns on every tensor whose last dimension is [in_features]. *)
Lemma Linear_forward_total (B L : nat) (l : Linear) (x : tensor3) :
  has_shape3 B L (in_features l) x = true ->
  Linear_forward l x = Ok (map (map (affine l)) x).
Proof.
  rewrite has_shape3_spec. intros [_ Hx].
  unfold Linear_forward. apply mapR_total_ext.
  eapply Forall_impl; [exact Hx|]. intros row Hrow.
  apply has_shape2_spec in Hrow. destruct Hrow as [_ Hrow].
  apply mapR_total_ext.
  eapply Forall_impl; [exact Hrow|]. intros h Hh. unfold Linear_vec.
  now rewrite Hh, Nat.eqb_refl.
Qed.

Lemma length_affine (l : Linear) (x : list R) :
  linear_ok l = true -> length (affine l x) = out_features l.
Proof.
  unfold linear_ok. rewrite andb_true_iff, has_shape2_spec, Nat.eqb_eq.
  intros [[Hw _] Hb]. unfold affine.
  rewrite length_map, length_combine, Hw, Hb. apply Nat.min_id.
Qed.

Lemma map_affine_shape (B L : nat) (l : Linear) (x : tensor3) :
  linear_ok l = true ->
  length x = B -> Forall (fun row => length row = L) x ->
  has_shape3 B L (out_features l) (map (map (affine l)) x) = true.
Proof.
  intros Hl HB HL. apply has_shape3_spec. split; [now rewrite length_map|].
  apply Forall_map. eapply Forall_impl; [exact HL|]. intros row Hrow. simpl.
  apply has_shape2_spec. split; [now rewrite length_map|].
  apply Forall_map, Forall_forall. intros h _. simpl. now apply length_affine.
Qed.

Lemma token_at_map (f : list R -> list R) (t : tensor3) (b i : nat) :
  token_at (map (map f) t) b i = f <$> token_at t b i.
Proof.
  unfold token_at.
  change (map (map f) t) with (fmap (M:=list) (fmap (M:=list) f) t).
  rewrite list_lookup_fmap.
  destruct (t !! b) as [row|]; simpl; [|reflexivity].
  apply list_lookup_fmap.
Qed.

Lemma Dropout_forward_off (d : Dropout) (keep : keep_mask) (x : tensor3) :
  negb (training d) || Qeq_bool (p d) 0 = true -> Dropout_forward d keep x = x.
Proof. unfold Dropout_forward. now intros ->. Qed.

Lemma Dropout_vec_off (d : Dropout) (keep : keep_mask) (b i : nat) (h : list R) :
  negb (training d) || Qeq_bool (p d) 0 = true -> Dropout_vec d keep b i h = h.
Proof. unfold Dropout_vec. now intros ->. Qed.

(** The layer acts token by token. *)
Lemma Dropout_forward_token (d : Dropout) (keep : keep_mask) (x : tensor3)
    (b i : nat) (h : list R) :
  token_at x b i = Some h ->
  token_at (Dropout_forward d keep x) b i = Some (Dropout_vec d keep b i h).
Proof.
  unfold Dropout_forward, Dropout_vec. intros Hh.
  destruct (negb (training d) || Qeq_bool (p d) 0); [exact Hh|].
  destruct (Qeq_bool (p d) 1).
  - now rewrite token_at_map, Hh.
  - unfold token_at in *. rewrite list_lookup_imap.
    destruct (x !! b) as [row|]; simpl in *; [|discriminate].
    rewrite list_lookup_imap, Hh. reflexivity.
Qed.

Lemma Dropout_vec_length (d : Dropout) (keep : keep_mask) (b i : nat) (h : list R) :
  length (Dropout_vec d keep b i h) = length h.
Proof.
  unfold Dropout_vec.
  destruct (negb (training d) || Qeq_bool (p d) 0); [reflexivity|].
  destruct (Qeq_bool (p d) 1); [apply length_map | apply length_imap].
Qed.

(** The layer keeps the shape of its input. *)
Lemma Dropout_forward_shape (B L H : nat) (d : Dropout) (keep : keep_mask) (x : tensor3) :
  has_shape3 B L H x = true -> has_shape3 B L H (Dropout_forward d keep x) = true.
Proof.
  unfold Dropout_forward.
  destruct (negb (training d) || Qeq_bool (p d) 0); [trivial|].
  rewrite !has_shape3_spec. intros [HB Hx].
  destruct (Qeq_bool (p d) 1).
  - split; [now rewrite length_map|].
    apply Forall_map. eapply Forall_impl; [exact Hx|]. intros row. simpl.
    rewrite !has_shape2_spec. intros [HL Hrow]. split; [now rewrite length_map|].
    apply Forall_map. eapply Forall_impl; [exact Hrow|]. intros h. simpl.
    now rewrite length_map.
  - split; [now rewrite length_imap|].
    apply Forall_lookup. intros b row'. rewrite list_lookup_imap.
    destruct (x !! b) as [row|] eqn:Hb; simpl; [|discriminate].
    intros [= <-]. rewrite Forall_lookup in Hx. specialize (Hx b row Hb).
    apply has_shape2_spec in Hx. destruct Hx as [HL Hrow].
    apply has_shape2_spec. split; [now rewrite length_imap|].
    apply Forall_lookup. intros i h'. rewrite list_lookup_imap.
    destruct (row !! i) as [h|] eqn:Hi; simpl; [|discriminate].
    intros [= <-]. rewrite length_imap.
    rewrite Forall_lookup in Hrow. exact (Hrow i h Hi).
Qed.

Lemma has_shape3_outer (B L C : nat) (t : tensor3) :
  has_shape3 B L C t = true ->
  length t = B /\ Forall (fun row => length row = L) t.
Proof.
  rewrite has_shape3_spec. intros [HB Ht]. split; [exact HB|].
  eapply Forall_impl; [exact Ht|]. intros row Hrow.
  now apply has_shape2_spec in Hrow.
Qed.

(* ===================================================================== *)
(** * The cross-entropy loss *)

Lemma Rsum_app (l k : list R) : Rsum (l ++ k) = (Rsum l + Rsum k)%R.
Proof. induction l as [|x l IH]; simpl; [lra|]. rewrite IH. lra. Qed.

Lemma Rsum_nonneg (l : list R) : Forall (fun x => (0 <= x)%R) l -> (0 <= Rsum l)%R.
Proof. induction 1; simpl; lra. Qed.

Lemma Rsum_exp_lower (row : list R) (c : nat) :
  c < length row -> (exp (nth c row 0%R) <= Rsum (map exp row))%R.
Proof.
  revert c. induction row as [|x row IH]; simpl; intros c Hc; [lia|].
  assert (0 <= Rsum (map exp row))%R.
  { apply Rsum_nonneg, Forall_map, Forall_forall. intros y _. left. apply exp_pos. }
  destruct c as [|c].
  - lra.
  - assert (c < length row) as Hc' by lia.
    specialize (IH c Hc'). pose proof (exp_pos x). lra.
Qed.

(** The negative log-likelihood of a class of the row is not negative. *)
Lemma nll_nonneg (row : list R) (c : nat) :
  c < length row -> (0 <= nll row c)%R.
Proof.
  intros Hc. unfold nll, log_softmax.
  set (lse := ln (Rsum (map exp row))).
  assert (nth c (map (fun x => (x - lse)%R) row) 0%R = (nth c row 0%R - lse)%R) as ->.
  { rewrite (nth_indep _ 0%R (0 - lse)%R) by now rewrite length_map.
    apply (map_nth (fun x => (x - lse)%R)). }
  assert (nth c row 0%R <= lse)%R; [|lra].
  rewrite <- (ln_exp (nth c row 0%R)). unfold lse.
  pose proof (Rsum_exp_lower row c Hc) as Hle.
  pose proof (exp_pos (nth c row 0%R)) as Hpos.
  destruct Hle as [Hlt|Heq].
  - left. apply ln_increasing; assumption.
  - right. now rewrite Heq.
Qed.

Lemma kept_positions_cons (row : list R) (rows : tensor2) (t : Z) (targets : list Z) :
  kept_positions (row :: rows) (t :: targets) =
  if (t =? -100)%Z then kept_positions rows targets
  else (row, t) :: kept_positions rows targets.
Proof.
  unfold kept_positions. simpl. rewrite filter_cons. simpl.
  destruct (Z.eqb_spec t (-100)) as [Ht|Ht];
    destruct (decide (t ≠ (-100)%Z)) as [Hd|Hd]; try reflexivity; exfalso; auto.
Qed.

Lemma kept_positions_nil_r (rows : tensor2) : kept_positions rows [] = [].
Proof. destruct rows; reflexivity. Qed.

(** The reduction loop adds, to the running total and count, exactly the
    positions that are kept. *)
Lemma nll_accumulate_kept (rows : tensor2) (targets : list Z) (s s' : R) (n n' : nat) :
  nll_accumulate (-100) rows targets (s, n) = Ok (s', n') ->
  s' = (s + Rsum (map (fun rt => nll (fst rt) (Z.to_nat (snd rt)))
                      (kept_positions rows targets)))%R
  /\ n' = n + length (kept_positions rows targets)
  /\ Forall (fun rt => (0 <= snd rt < Z.of_nat (length (fst rt)))%Z)
            (kept_positions rows targets).
Proof.
  revert targets s n. induction rows as [|row rows IH]; intros targets s n H.
  - simpl in H. inversion H; subst. simpl.
    split; [lra|]. split; [lia|constructor].
  - destruct targets as [|t targets].
    + simpl in H. inversion H; subst. simpl.
      split; [lra|]. split; [lia|constructor].
    + rewrite kept_positions_cons. simpl in H.
      destruct (t =? -100)%Z; [now apply IH|].
      destruct ((0 <=? t)%Z && (t <? Z.of_nat (length row))%Z) eqn:Hr; [|discriminate].
      apply IH in H. destruct H as (-> & -> & Hall). simpl.
      split; [lra|]. split; [lia|].
      constructor; [|exact Hall]. simpl.
      apply andb_true_iff in Hr. destruct Hr as [H0 H1].
      apply Z.leb_le in H0. apply Z.ltb_lt in H1. lia.
Qed.

(** The loop returns when every target is the ignore index or a class of its
    row. *)
Lemma nll_accumulate_total (C : nat) (rows : tensor2) (targets : list Z) (acc : R * nat) :
  Forall (fun row => length row = C) rows ->
  Forall (fun t => (t =? -100)%Z || ((0 <=? t)%Z && (t <? Z.of_nat C)%Z) = true) targets ->
  exists acc', nll_accumulate (-100) rows targets acc = Ok acc'.
Proof.
  intros Hrows. revert targets acc.
  induction Hrows as [|row rows Hrow _ IH]; intros targets acc Ht.
  - simpl. eauto.
  - destruct targets as [|t targets]; [simpl; eauto|].
    inversion Ht as [|? ? Hhd Htl]; subst. simpl.
    destruct (t =? -100)%Z; [now apply IH|].
    simpl in Hhd. rewrite Hhd. now apply IH.
Qed.

Lemma CrossEntropyLoss_forward_spec (rows : tensor2) (targets : list Z) (s : scalar) :
  CrossEntropyLoss_forward CrossEntropyLoss_new rows targets = Ok s ->
  length rows = length targets
  /\ s = mean_nll (kept_positions rows targets)
  /\ Forall (fun rt => (0 <= snd rt < Z.of_nat (length (fst rt)))%Z)
            (kept_positions rows targets).
Proof.
  unfold CrossEntropyLoss_forward. simpl ignore_index.
  destruct (Nat.eqb_spec (length rows) (length targets)) as [Hlen|]; [|discriminate].
  destruct (nll_accumulate _ rows targets _) as [[total n]|e] eqn:Hacc; [|discriminate].
  apply nll_accumulate_kept in Hacc. destruct Hacc as (-> & -> & Hall).
  intros [= <-]. split; [exact Hlen|]. split; [|exact Hall].
  unfold mean_nll. simpl.
  destruct (kept_positions rows targets) as [|rt kept]; [reflexivity|].
  cbn [length]. f_equal. f_equal. lra.
Qed.

Lemma CrossEntropyLoss_forward_total (C : nat) (rows : tensor2) (targets : list Z) :
  length rows = length targets ->
  Forall (fun row => length row = C) rows ->
  Forall (fun t => (t =? -100)%Z || ((0 <=? t)%Z && (t <? Z.of_nat C)%Z) = true) targets ->
  CrossEntropyLoss_forward CrossEntropyLoss_new rows targets
  = Ok (mean_nll (kept_positions rows targets)).
Proof.
  intros Hlen Hrows Ht.
  destruct (nll_accumulate_total C rows targets (0%R, 0) Hrows Ht) as [[total n] Hacc].
  destruct (CrossEntropyLoss_forward CrossEntropyLoss_new rows targets) as [s|e] eqn:Hce.
  - apply CrossEntropyLoss_forward_spec in Hce. now destruct Hce as (_ & -> & _).
  - exfalso. unfold CrossEntropyLoss_forward in Hce. simpl ignore_index in Hce.
    rewrite Hlen, Nat.eqb_refl, Hacc in Hce. discriminate.
Qed.

Lemma CrossEntropyLoss_forward_mismatch (l : CrossEntropyLoss) (rows : tensor2)
    (targets : list Z) :
  length rows <> length targets ->
  CrossEntropyLoss_forward l rows targets = Raise ValueError.
Proof.
  intros Hlen. unfold CrossEntropyLoss_forward.
  now destruct (Nat.eqb_spec (length rows) (length targets)).
Qed.

(** A mean over at least one position, each with a class of its row, is a
    number, and it is not negative. *)
Lemma mean_nll_nonneg (kept : list (list R * Z)) :
  kept <> [] ->
  Forall (fun rt => (0 <= snd rt < Z.of_nat (length (fst rt)))%Z) kept ->
  exists r, mean_nll kept = Real r /\ (0 <= r)%R.
Proof.
  intros Hne Hall. destruct kept as [|rt kept]; [contradiction|].
  eexists. split; [reflexivity|].
  apply Rmult_le_pos.
  - apply Rsum_nonneg, Forall_map. eapply Forall_impl; [exact Hall|].
    intros [row t] Hrt. simpl in *. apply nll_nonneg. lia.
  - left. apply Rinv_0_lt_compat, lt_0_INR. simpl. lia.
Qed.

Lemma kept_positions_all_ignored (rows : tensor2) (targets : list Z) :
  Forall (fun t => t = (-100)%Z) targets -> kept_positions rows targets = [].
Proof.
  intros Ht. revert rows. induction Ht as [|t targets -> _ IH]; intros rows.
  - apply kept_positions_nil_r.
  - destruct rows as [|row rows]; [reflexivity|].
    rewrite kept_positions_cons. simpl. apply IH.
Qed.

(* ===================================================================== *)
(** * The forward pass *)

Section Forward.
Context {lib : RobertaLib}.

Implicit Types (self : XLMRobertaForTokenClassification) (draw : Draw)
  (keep : keep_mask) (kwargs : Kwargs) (c : XLMRobertaConfig).

(** The control flow of [forward], one library call after the other. *)
Lemma forward_eq self draw keep input_ids attention_mask token_type_ids labels kwargs c :
  forward self draw keep input_ids attention_mask token_type_ids labels kwargs c =
  match RobertaModel_forward (roberta self) draw input_ids attention_mask
          token_type_ids kwargs c with
  | (Ok outputs, c') =>
      match Linear_forward (classifier self)
              (Dropout_forward (dropout self) keep
                 (BaseModelOutput.last_hidden_state outputs)) with
      | Ok lg =>
          match labels with
          | None =>
              (Ok {| TokenClassifierOutput.loss := None;
                     TokenClassifierOutput.logits := lg;
                     TokenClassifierOutput.hidden_states :=
                       BaseModelOutput.hidden_states outputs;
                     TokenClassifierOutput.attentions :=
                       BaseModelOutput.attentions outputs |}, c')
          | Some labels =>
              match view_rows (num_labels self) lg with
              | Ok input =>
                  match CrossEntropyLoss_forward CrossEntropyLoss_new input
                          (view_flat labels) with
                  | Ok l =>
                      (Ok {| TokenClassifierOutput.loss := Some l;
                             TokenClassifierOutput.logits := lg;
                             TokenClassifierOutput.hidden_states :=
                               BaseModelOutput.hidden_states outputs;
                             TokenClassifierOutput.attentions :=
                               BaseModelOutput.attentions outputs |}, c')
                  | Raise e => (Raise e, c')
                  end
              | Raise e => (Raise e, c')
              end
          end
      | Raise e => (Raise e, c')
      end
  | (Raise e, c') => (Raise e, c')
  end.
Proof.
  unfold forward, mbind, M_bind, bindM, mret, M_ret, retM, lift.
  destruct (RobertaModel_forward _ _ _ _ _ _ c) as [[outputs|e] c']; [|reflexivity].
  simpl.
  destruct (Linear_forward _ _) as [lg|e]; [|reflexivity].
  destruct labels as [labels|]; [|reflexivity].
  destruct (view_rows _ lg) as [input|e]; [|reflexivity].
  destruct (CrossEntropyLoss_forward _ _ _) as [l|e]; reflexivity.
Qed.

(** What a returning invocation has computed. *)
Lemma forward_inv self draw keep input_ids attention_mask token_type_ids labels kwargs c
    (out : TokenClassifierOutput.t Aux) c' :
  forward self draw keep input_ids attention_mask token_type_ids labels kwargs c
  = (Ok out, c') ->
  exists outputs,
    RobertaModel_forward (roberta self) draw input_ids attention_mask
      token_type_ids kwargs c = (Ok outputs, c')
    /\ TokenClassifierOutput.logits out
       = map (map (affine (classifier self)))
             (Dropout_forward (dropout self) keep
                (BaseModelOutput.last_hidden_state outputs))
    /\ Linear_forward (classifier self)
         (Dropout_forward (dropout self) keep
            (BaseModelOutput.last_hidden_state outputs))
       = Ok (TokenClassifierOutput.logits out)
    /\ TokenClassifierOutput.hidden_states out = BaseModelOutput.hidden_states outputs
    /\ TokenClassifierOutput.attentions out = BaseModelOutput.attentions outputs
    /\ match labels with
       | None => TokenClassifierOutput.loss out = None
       | Some labels =>
           exists input l,
             view_rows (num_labels self) (TokenClassifierOutput.logits out) = Ok input
             /\ CrossEntropyLoss_forward CrossEntropyLoss_new input (view_flat labels)
                = Ok l
             /\ TokenClassifierOutput.loss out = Some l
       end.
Proof.
  rewrite forward_eq.
  destruct (RobertaModel_forward _ _ _ _ _ _ c) as [[outputs|e] c1]; [|discriminate].
  destruct (Linear_forward _ _) as [lg|e] eqn:Hlin; [|destruct labels; discriminate].
  pose proof (Linear_forward_ok _ _ _ Hlin) as Hlg.
  destruct labels as [labels|].
  - destruct (view_rows _ lg) as [input|e] eqn:Hview; [|discriminate].
    destruct (CrossEntropyLoss_forward _ _ _) as [l|e] eqn:Hce; [|discriminate].
    intros [= <- <-]. exists outputs. simpl. repeat split; eauto.
  - intros [= <- <-]. exists outputs. simpl. repeat split; eauto.
Qed.

Lemma model_ok_spec self :
  model_ok self = true ->
  linear_ok (classifier self) = true
  /\ out_features (classifier self) = num_labels self
  /\ in_features (classifier self) = RobertaModel_hidden_size (roberta self).
Proof.
  unfold model_ok. rewrite !andb_true_iff, !Nat.eqb_eq. tauto.
Qed.

(** The logits of the head on the hidden states of a (B, L) batch. *)
Lemma head_logits_shape self keep (h : tensor3) (B L : nat) :
  model_ok self = true ->
  has_shape3 B L (RobertaModel_hidden_size (roberta self)) h = true ->
  Linear_forward (classifier self) (Dropout_forward (dropout self) keep h)
  = Ok (map (map (affine (classifier self))) (Dropout_forward (dropout self) keep h))
  /\ has_shape3 B L (num_labels self)
       (map (map (affine (classifier self))) (Dropout_forward (dropout self) keep h))
     = true.
Proof.
  intros Hok Hh. apply model_ok_spec in Hok. destruct Hok as (Hlin & Hout & Hin).
  apply (Dropout_forward_shape _ _ _ (dropout self) keep) in Hh.
  split.
  - apply (Linear_forward_total B L). now rewrite Hin.
  - rewrite <- Hout. apply has_shape3_outer in Hh. destruct Hh as [HB HL].
    now apply map_affine_shape.
Qed.
Lemma Linear_new_ok (inf outf : nat) (w : nat -> nat -> R) (b : nat -> R) :
  linear_ok (Linear_new inf outf w b) = true.
Proof.
  unfold linear_ok, Linear_new. simpl.
  rewrite !length_map, !length_seq, Nat.eqb_refl, andb_true_r.
  apply has_shape2_spec. split; [now rewrite length_map, length_seq|].
  apply Forall_map, Forall_forall. intros i _. simpl.
  now rewrite length_map, length_seq.
Qed.

Lemma same_hyperparameters_refl c : same_hyperparameters c c.
Proof. repeat split. Qed.

(** What a returning construction has done: the three library calls, with a
    body built without a pooling layer, and the three attributes read. *)
Lemma init_inv (d : init_draws) c self c' :
  library_keeps_hyperparameters ->
  __init__ d c = (Ok self, c') ->
  same_hyperparameters c c'
  /\ exists body c1 c2,
       PreTrainedModel_init c = (Ok (), c1)
       /\ RobertaModel_new false c1 = (Ok body, c2)
       /\ RobertaModel_init_weights body (body_draw d) c2 = (Ok (roberta self), c')
       /\ same_hyperparameters c c1
       /\ num_labels self = config.num_labels c
       /\ dropout self = {| p := config.hidden_dropout_prob c; training := true |}
       /\ classifier self
          = Linear_new (config.hidden_size c) (config.num_labels c)
              (head_weight_draw d) (fun _ => 0%R).
Proof.
  intros Hkeep. destruct (Hkeep c) as (Hsuper & Hnew & Hinit & _).
  unfold __init__, init_weights, mbind, M_bind, bindM, mret, M_ret, retM, lift,
    getattr, Dropout_new.
  pose proof (Hsuper c (same_hyperparameters_refl c)) as H1.
  destruct (PreTrainedModel_init c) as [[[]|e] c1]; simpl in H1; [|discriminate].
  pose proof (Hnew false c1 H1) as H2.
  destruct (RobertaModel_new false c1) as [[body|e] c2] eqn:Hb; simpl in H2;
    [|discriminate].
  destruct (Qle_bool 0 (config.hidden_dropout_prob c2)
            && Qle_bool (config.hidden_dropout_prob c2) 1); [|discriminate].
  simpl.
  pose proof (Hinit body (body_draw d) c2 H2) as H3.
  destruct (RobertaModel_init_weights body (body_draw d) c2) as [[body'|e] c3] eqn:Hw;
    simpl in H3; [|discriminate].
  intros [= <- <-]. split; [exact H3|]. exists body, c1, c2. simpl.
  pose proof H1 as (N1 & _ & _). pose proof H2 as (N2 & P2 & S2).
  rewrite N1, N2, P2, S2. repeat split; try reflexivity; try assumption; apply H1.
Qed.

(** Construction keeps whatever the library calls keep. *)
Lemma init_preserves (P : XLMRobertaConfig -> Prop) (d : init_draws) c :
  library_preserves P -> P c -> P (snd (__init__ d c)).
Proof.
  intros (Hsuper & Hnew & Hinit & _) Hc.
  unfold __init__, init_weights, mbind, M_bind, bindM, mret, M_ret, retM, lift,
    getattr, Dropout_new.
  pose proof (Hsuper c Hc) as H1.
  destruct (PreTrainedModel_init c) as [[[]|e] c1]; simpl in H1; [|exact H1].
  pose proof (Hnew false c1 H1) as H2.
  destruct (RobertaModel_new false c1) as [[body|e] c2]; simpl in H2; [|exact H2].
  destruct (Qle_bool 0 (config.hidden_dropout_prob c2)
            && Qle_bool (config.hidden_dropout_prob c2) 1); [|exact H2].
  simpl.
  pose proof (Hinit body (body_draw d) c2 H2) as H3.
  destruct (RobertaModel_init_weights body (body_draw d) c2) as [[body'|e] c3];
    exact H3.
Qed.

(** The forward pass keeps whatever the library calls keep. *)
Lemma forward_preserves (P : XLMRobertaConfig -> Prop) self draw keep
    input_ids attention_mask token_type_ids labels kwargs c :
  library_preserves P ->
  P c ->
  P (snd (forward self draw keep input_ids attention_mask token_type_ids labels
            kwargs c)).
Proof.
  intros (_ & _ & _ & Hfwd) Hc. rewrite forward_eq.
  pose proof (Hfwd (roberta self) draw input_ids attention_mask token_type_ids
                kwargs c Hc) as H.
  destruct (RobertaModel_forward _ _ _ _ _ _ c) as [[outputs|e] c1];
    simpl in H; [|exact H].
  destruct (Linear_forward _ _); [|exact H].
  destruct labels; [|exact H].
  destruct (view_rows _ _); [|exact H].
  destruct (CrossEntropyLoss_forward _ _ _); exact H.
Qed.

(** Construction establishes the invariant the forward pass relies on. *)
Lemma init_model_ok (d : init_draws) c self c' :
  library_keeps_hyperparameters ->
  encoder_init_contract ->
  __init__ d c = (Ok self, c') ->
  model_ok self = true /\ num_labels self = config.num_labels c.
Proof.
  intros Hlib (Hnew & Hinit) H.
  destruct (init_inv d c self c' Hlib H)
    as (_ & body & c1 & c2 & _ & Hbody & Hroberta & (_ & _ & Hsize) & Hnum & _ & Hcls).
  split; [|exact Hnum].
  unfold model_ok. rewrite Hcls, Linear_new_ok. simpl.
  rewrite Hnum, Nat.eqb_refl. simpl. apply Nat.eqb_eq.
  rewrite (Hinit _ _ _ _ _ Hroberta), (Hnew _ _ _ _ Hbody). now rewrite Hsize.
Qed.

(** The logits of a returning invocation on a (B, L) batch. *)
Lemma logits_shape_core :
  encoder_shape_contract ->
  forall self draw keep (ids : itensor2) (mask tt labels : option itensor2) kwargs c
         (out : TokenClassifierOutput.t Aux) c' (B L : nat),
    model_ok self = true ->
    has_shape2 B L ids = true ->
    forward self draw keep (Some ids) mask tt labels kwargs c = (Ok out, c') ->
    has_shape3 B L (num_labels self) (TokenClassifierOutput.logits out) = true.
Proof.
  intros Henc self draw keep ids mask tt labels kwargs c out c' B L Hok Hids H.
  apply forward_inv in H. destruct H as (outputs & Hrun & Hlg & _).
  rewrite Hlg. apply head_logits_shape; [exact Hok|].
  eapply Henc; eassumption.
Qed.
End Forward.

(* ===================================================================== *)
(** * The concrete encoder honours the contracts *)

Lemma toy_encoder_shape : @encoder_shape_contract toy_lib.
Proof.
  intros body draw ids mask tt kwargs c c' outputs B L H Hids.
  simpl in H. unfold toy_forward in H. inversion H; subst; clear H.
  apply has_shape2_spec in Hids. destruct Hids as [HB HL].
  simpl. apply has_shape3_spec. split; [now rewrite length_map|].
  apply Forall_map. eapply Forall_impl; [exact HL|]. intros row Hrow. simpl.
  apply has_shape2_spec. split; [now rewrite length_map|].
  apply Forall_map, Forall_forall. intros t _. simpl.
  unfold toy_vector. now rewrite length_map, length_seq.
Qed.

Lemma toy_encoder_init : @encoder_init_contract toy_lib.
Proof.
  split.
  - intros add_pooling_layer c c' body H. simpl in H. now inversion H.
  - intros body draw c c' body' H. simpl in H. now inversion H.
Qed.

Lemma recording_encoder_shape : @encoder_shape_contract recording_lib.
Proof. exact toy_encoder_shape. Qed.

Lemma recording_encoder_init : @encoder_init_contract recording_lib.
Proof.
  split.
  - intros add_pooling_layer c c' body H. simpl in H. now inversion H.
  - intros body draw c c' body' H. simpl in H. now inversion H.
Qed.

Lemma recording_library_keeps_hyperparameters :
  @library_keeps_hyperparameters recording_lib.
Proof.
  intros c0. split; [|split; [|split]].
  - intros c H. exact H.
  - intros add_pooling_layer c H. exact H.
  - intros body draw c H. exact H.
  - intros body draw ids mask tt kwargs c H. simpl. unfold toy_forward.
    destruct ids; exact H.
Qed.

(** [recording_model] is what construction returns on [toy_config] over
    [recording_lib]; the configuration object then holds the private
    attribute. *)
Lemma recording_init :
  @__init__ recording_lib recording_draws toy_config
  = (Ok recording_model, toy_config_recorded).
Proof. reflexivity. Qed.

(* ===================================================================== *)
(** * Properties of the token-classification model *)

Section Claims.
Context {lib : RobertaLib}.

Implicit Types (self : XLMRobertaForTokenClassification) (draw : Draw)
  (keep : keep_mask) (kwargs : Kwargs) (c : XLMRobertaConfig)
  (ids labels : itensor2) (mask tt : option itensor2).

(** C1. On a batch of [B] sequences of [L] token identifiers, the logits of
    every returning invocation have shape (B, L, num_labels), with or without
    labels; without labels the invocation returns as soon as the encoder does,
    with an absent loss; for the sequence [101, 2045, 2003, 102] with mask
    [1, 1, 1, 1] and seven labels the shape is (1, 4, 7). *)
Theorem logits_shape_B_L_num_labels :
  encoder_shape_contract ->
  forall self draw keep ids mask tt kwargs c (B L : nat),
    model_ok self = true ->
    has_shape2 B L ids = true ->
    (forall (labels : option itensor2) out c',
        forward self draw keep (Some ids) mask tt labels kwargs c = (Ok out, c') ->
        has_shape3 B L (num_labels self) (TokenClassifierOutput.logits out) = true)
    /\ (forall outputs c',
          RobertaModel_forward (roberta self) draw (Some ids) mask tt kwargs c
          = (Ok outputs, c') ->
          exists out,
            forward self draw keep (Some ids) mask tt None kwargs c = (Ok out, c')
            /\ TokenClassifierOutput.loss out = None
            /\ has_shape3 B L (num_labels self) (TokenClassifierOutput.logits out) = true)
    /\ (ids = [[101; 2045; 2003; 102]]%Z ->
        mask = Some [[1; 1; 1; 1]]%Z ->
        num_labels self = 7 ->
        forall (labels : option itensor2) out c',
          forward self draw keep (Some ids) mask tt labels kwargs c = (Ok out, c') ->
          has_shape3 1 4 7 (TokenClassifierOutput.logits out) = true).
Proof.
  intros Henc self draw keep ids mask tt kwargs c B L Hok Hids.
  assert (forall (labels : option itensor2) out c',
             forward self draw keep (Some ids) mask tt labels kwargs c = (Ok out, c') ->
             has_shape3 B L (num_labels self) (TokenClassifierOutput.logits out) = true)
    as Hshape.
  { intros labels out c' H. eapply logits_shape_core; eassumption. }
  split; [exact Hshape|]. split.
  - intros outputs c' Hrun.
    pose proof (Henc _ _ _ _ _ _ _ _ _ _ _ Hrun Hids) as Hh.
    destruct (head_logits_shape self keep _ B L Hok Hh) as [Hlin Hlg].
    eexists. rewrite forward_eq, Hrun, Hlin. split; [reflexivity|].
    split; [reflexivity|exact Hlg].
  - intros -> _ H7 labels out c' H. rewrite <- H7.
    apply has_shape2_spec in Hids. simpl in Hids. destruct Hids as [<- HL].
    inversion HL as [|? ? <- _]; subst.
    eapply Hshape; eassumption.
Qed.

(** C4. A returning invocation has called the encoder body, taken the full
    sequence of per-token hidden states of its output, applied dropout to it
    and then the linear projection: at every token position the logits are
    [classifier(dropout(hidden state))], and outside training, or with a zero
    dropout probability, they are [classifier(hidden state)]. *)
Theorem logits_are_classifier_of_dropout_of_hidden_states :
  forall self draw keep (input_ids : option itensor2) mask tt (labels : option itensor2)
         kwargs c out c',
    forward self draw keep input_ids mask tt labels kwargs c = (Ok out, c') ->
    exists outputs,
      RobertaModel_forward (roberta self) draw input_ids mask tt kwargs c
      = (Ok outputs, c')
      /\ Linear_forward (classifier self)
           (Dropout_forward (dropout self) keep
              (BaseModelOutput.last_hidden_state outputs))
         = Ok (TokenClassifierOutput.logits out)
      /\ (forall b i h,
             token_at (BaseModelOutput.last_hidden_state outputs) b i = Some h ->
             token_at (TokenClassifierOutput.logits out) b i
             = Some (affine (classifier self) (Dropout_vec (dropout self) keep b i h)))
      /\ (negb (training (dropout self)) || Qeq_bool (p (dropout self)) 0 = true ->
          forall b i h,
            token_at (BaseModelOutput.last_hidden_state outputs) b i = Some h ->
            token_at (TokenClassifierOutput.logits out) b i
            = Some (affine (classifier self) h)).
Proof.
  intros self draw keep input_ids mask tt labels kwargs c out c' H.
  apply forward_inv in H. destruct H as (outputs & Hrun & Hlg & Hlin & _).
  exists outputs. split; [exact Hrun|]. split; [exact Hlin|].
  assert (forall b i h,
             token_at (BaseModelOutput.last_hidden_state outputs) b i = Some h ->
             token_at (TokenClassifierOutput.logits out) b i
             = Some (affine (classifier self) (Dropout_vec (dropout self) keep b i h)))
    as Htoken.
  { intros b i h Hh. rewrite Hlg, token_at_map.
    now rewrite (Dropout_forward_token _ _ _ _ _ _ Hh). }
  split; [exact Htoken|].
  intros Hoff b i h Hh. rewrite (Htoken b i h Hh).
  now rewrite Dropout_vec_off.
Qed.


(** The rows that enter the loss are the same in two runs whose logits agree
    wherever the label is not the ignore index. *)
Lemma kept_positions_agree (rows rows' : tensor2) (targets : list Z) :
  length rows = length targets ->
  length rows' = length targets ->
  (forall k t, targets !! k = Some t -> t <> (-100)%Z -> rows !! k = rows' !! k) ->
  kept_positions rows targets = kept_positions rows' targets.
Proof.
  revert rows rows'. induction targets as [|t targets IH]; intros rows rows' H1 H2 Hagree.
  - now rewrite !kept_positions_nil_r.
  - destruct rows as [|row rows]; [discriminate|].
    destruct rows' as [|row' rows']; [discriminate|].
    rewrite !kept_positions_cons.
    assert (kept_positions rows targets = kept_positions rows' targets) as ->.
    { apply IH; [simpl in *; lia..|].
      intros k t' Hk Ht'. exact (Hagree (S k) t' Hk Ht'). }
    destruct (Z.eqb_spec t (-100)) as [|Ht]; [reflexivity|].
    specialize (Hagree 0 t eq_refl Ht). simpl in Hagree.
    now injection Hagree as ->.
Qed.

Lemma kept_positions_nonempty (rows : tensor2) (targets : list Z) (t : Z) :
  length rows = length targets ->
  In t targets -> t <> (-100)%Z ->
  kept_positions rows targets <> [].
Proof.
  revert rows. induction targets as [|t' targets IH]; intros rows Hlen Hin Ht; [easy|].
  destruct rows as [|row rows]; [discriminate|].
  rewrite kept_positions_cons.
  destruct (Z.eqb_spec t' (-100)) as [->|]; [|discriminate].
  destruct Hin as [Heq|Hin]; [congruence|].
  apply IH; [simpl in Hlen; lia|assumption..].
Qed.

(** What a returning invocation with labels has computed as its loss. *)
Lemma forward_loss_spec :
  encoder_shape_contract ->
  forall self draw keep ids mask tt labels kwargs c out c' (B L : nat),
    model_ok self = true ->
    has_shape2 B L ids = true ->
    forward self draw keep (Some ids) mask tt (Some labels) kwargs c = (Ok out, c') ->
    num_labels self <> 0
    /\ has_shape3 B L (num_labels self) (TokenClassifierOutput.logits out) = true
    /\ length (view_flat labels) = B * L
    /\ TokenClassifierOutput.loss out
       = Some (mean_nll (kept_positions (concat (TokenClassifierOutput.logits out))
                                        (view_flat labels)))
    /\ Forall (fun rt => (0 <= snd rt < Z.of_nat (length (fst rt)))%Z)
              (kept_positions (concat (TokenClassifierOutput.logits out))
                              (view_flat labels)).
Proof.
  intros Henc self draw keep ids mask tt labels kwargs c out c' B L Hok Hids H.
  pose proof (logits_shape_core Henc _ _ _ _ _ _ _ _ _ _ _ _ _ Hok Hids H) as Hshape.
  apply forward_inv in H.
  destruct H as (outputs & _ & _ & _ & _ & _ & input & l & Hview & Hce & Hloss).
  destruct (Nat.eq_dec (num_labels self) 0) as [H0|H0].
  { rewrite H0 in Hview. discriminate. }
  rewrite (view_rows_ok _ _ _ _ Hshape H0) in Hview. injection Hview as <-.
  apply CrossEntropyLoss_forward_spec in Hce. destruct Hce as (Hlen & -> & Hall).
  pose proof (concat_shape _ _ _ _ Hshape) as Hrows.
  apply has_shape2_spec in Hrows. destruct Hrows as [Hrows _].
  repeat split; try assumption. congruence.
Qed.

(** An invocation with labels returns as soon as the encoder does, the model
    has at least one label, there are as many labels as tokens, and every
    label is the ignore index or a class. *)
Lemma forward_labels_returns :
  encoder_shape_contract ->
  forall self draw keep ids mask tt labels kwargs c outputs c' (B L : nat),
    model_ok self = true ->
    has_shape2 B L ids = true ->
    RobertaModel_forward (roberta self) draw (Some ids) mask tt kwargs c
    = (Ok outputs, c') ->
    num_labels self <> 0 ->
    length (view_flat labels) = B * L ->
    labels_in_range (num_labels self) labels = true ->
    exists out,
      forward self draw keep (Some ids) mask tt (Some labels) kwargs c = (Ok out, c')
      /\ TokenClassifierOutput.loss out
         = Some (mean_nll (kept_positions (concat (TokenClassifierOutput.logits out))
                                          (view_flat labels))).
Proof.
  intros Henc self draw keep ids mask tt labels kwargs c outputs c' B L
         Hok Hids Hrun H0 Hlen Hrange.
  pose proof (Henc _ _ _ _ _ _ _ _ _ _ _ Hrun Hids) as Hh.
  destruct (head_logits_shape self keep _ B L Hok Hh) as [Hlin Hlg].
  pose proof (concat_shape _ _ _ _ Hlg) as Hrows.
  apply has_shape2_spec in Hrows. destruct Hrows as [Hrows Hwidth].
  eexists. rewrite forward_eq, Hrun, Hlin, (view_rows_ok _ _ _ _ Hlg H0).
  rewrite (CrossEntropyLoss_forward_total (num_labels self)).
  - split; reflexivity.
  - congruence.
  - exact Hwidth.
  - unfold labels_in_range in Hrange. rewrite forallb_forall in Hrange.
    apply Forall_forall. intros t Ht. apply Hrange. now apply list_elem_of_In.
Qed.

(** C2, as the code has it. A position is ignored exactly when its label is
    -100, so the label at an ignored position cannot change and stay ignored.
    The loss of a returning invocation is the mean of the negative
    log-likelihoods over the flattened positions whose label is not -100;
    a second invocation with the same labels, whose logits agree with the
    first at every position whose label is not -100, computes the same loss,
    whatever its logits at the ignored positions; for the sequence
    [101, 2045, 2003, 102] with labels [-100, 3, 5, -100] the loss is the mean
    of the negative log-likelihoods at positions 1 and 2. *)
Theorem loss_is_mean_over_positions_not_ignored :
  encoder_shape_contract ->
  forall self draw keep ids mask tt labels kwargs c out c' (B L : nat),
    model_ok self = true ->
    has_shape2 B L ids = true ->
    forward self draw keep (Some ids) mask tt (Some labels) kwargs c = (Ok out, c') ->
    TokenClassifierOutput.loss out
    = Some (mean_nll (kept_positions (concat (TokenClassifierOutput.logits out))
                                     (view_flat labels)))
    /\ (forall self2 draw2 keep2 ids2 mask2 tt2 kwargs2 c2 out2 c2' (B2 L2 : nat),
          model_ok self2 = true ->
          has_shape2 B2 L2 ids2 = true ->
          forward self2 draw2 keep2 (Some ids2) mask2 tt2 (Some labels) kwargs2 c2
          = (Ok out2, c2') ->
          (forall k t,
              view_flat labels !! k = Some t -> t <> (-100)%Z ->
              concat (TokenClassifierOutput.logits out) !! k
              = concat (TokenClassifierOutput.logits out2) !! k) ->
          TokenClassifierOutput.loss out2 = TokenClassifierOutput.loss out)
    /\ (ids = [[101; 2045; 2003; 102]]%Z ->
        labels = [[-100; 3; 5; -100]]%Z ->
        exists r0 r1 r2 r3,
          TokenClassifierOutput.logits out = [[r0; r1; r2; r3]]
          /\ TokenClassifierOutput.loss out
             = Some (Real ((nll r1 3 + nll r2 5) / 2))).
Proof.
  intros Henc self draw keep ids mask tt labels kwargs c out c' B L Hok Hids H.
  destruct (forward_loss_spec Henc _ _ _ _ _ _ _ _ _ _ _ _ _ Hok Hids H)
    as (_ & Hshape & Hlen & Hloss & _).
  split; [exact Hloss|]. split.
  - intros self2 draw2 keep2 ids2 mask2 tt2 kwargs2 c2 out2 c2' B2 L2 Hok2 Hids2 H2 Hagree.
    destruct (forward_loss_spec Henc _ _ _ _ _ _ _ _ _ _ _ _ _ Hok2 Hids2 H2)
      as (_ & Hshape2 & Hlen2 & Hloss2 & _).
    rewrite Hloss, Hloss2. do 2 f_equal.
    apply concat_shape, has_shape2_spec in Hshape, Hshape2.
    destruct Hshape as [Hrows _]. destruct Hshape2 as [Hrows2 _].
    symmetry. apply kept_positions_agree; [congruence..|exact Hagree].
  - intros -> ->.
    apply has_shape2_spec in Hids. simpl in Hids. destruct Hids as [<- HL].
    inversion HL as [|? ? <- _]; subst. clear HL.
    apply has_shape3_spec in Hshape. destruct Hshape as [HB Hrow].
    destruct (TokenClassifierOutput.logits out) as [|row [|? ?]] eqn:Hlg;
      try discriminate.
    inversion Hrow as [|? ? Hrow' _]; subst.
    apply has_shape2_spec in Hrow'. destruct Hrow' as [Hrow' _].
    destruct row as [|r0 [|r1 [|r2 [|r3 [|? ?]]]]]; try discriminate.
    exists r0, r1, r2, r3. split; [reflexivity|].
    rewrite Hloss. simpl.
    change (Z.to_nat 3) with 3. change (Z.to_nat 5) with 5.
    do 2 f_equal. lra.
Qed.

Lemma Rabs_Rsum_le (l : list R) : (Rabs (Rsum l) <= Rsum (map Rabs l))%R.
Proof.
  induction l as [|x l IH]; simpl.
  - rewrite Rabs_R0. lra.
  - eapply Rle_trans; [apply Rabs_triang|]. fold (Rsum l). fold (Rsum (map Rabs l)). lra.
Qed.

Lemma Rsum_upper (u : R) (l : list R) :
  Forall (fun x => (x <= u)%R) l -> (Rsum l <= INR (length l) * u)%R.
Proof.
  induction 1 as [|x l Hx _ IH]; [simpl; lra|].
  cbn [length Rsum fold_right]. rewrite S_INR. fold (Rsum l). lra.
Qed.

(** Every logit of a vector whose magnitudes stay within [M] lies between
    [-M] and [M]. *)
Lemma affine_within (M : R) (l : Linear) (x : list R) :
  magnitudes_within M l x -> Forall (fun v => (Rabs v <= M)%R) (affine l x).
Proof.
  unfold magnitudes_within, affine. intros H. apply Forall_map.
  eapply Forall_impl; [exact H|]. intros [w b] Hwb. simpl in *.
  eapply Rle_trans; [apply Rabs_triang|].
  eapply Rle_trans; [|exact Hwb].
  apply Rplus_le_compat_r. unfold dot.
  eapply Rle_trans; [apply Rabs_Rsum_le|]. rewrite map_map. apply Rle_refl.
Qed.

(** The negative log-likelihood of a class under logits between [-M] and
    [M] is at most [2 M] plus the logarithm of the number of classes. *)
Lemma nll_upper (M : R) (row : list R) (c : nat) :
  c < length row ->
  Forall (fun v => (Rabs v <= M)%R) row ->
  (nll row c <= 2 * M + ln (INR (length row)))%R.
Proof.
  intros Hc Hrow. unfold nll, log_softmax.
  set (lse := ln (Rsum (map exp row))).
  assert (nth c (map (fun x => (x - lse)%R) row) 0%R = (nth c row 0%R - lse)%R) as ->.
  { rewrite (nth_indep _ 0%R (0 - lse)%R) by now rewrite length_map.
    apply (map_nth (fun x => (x - lse)%R)). }
  assert (- M <= nth c row 0%R)%R as Hlow.
  { rewrite Forall_forall in Hrow.
    assert (Rabs (nth c row 0%R) <= M)%R as Habs
      by (apply Hrow, list_elem_of_In, nth_In; exact Hc).
    pose proof (Rle_abs (- nth c row 0%R)) as H. rewrite Rabs_Ropp in H. lra. }
  assert (lse <= ln (INR (length row)) + M)%R as Hlse; [|lra].
  assert (0 < INR (length row))%R as Hn by (apply lt_0_INR; lia).
  rewrite <- (ln_exp M). rewrite <- ln_mult by (try apply exp_pos; exact Hn).
  unfold lse.
  assert (0 < Rsum (map exp row))%R as Hpos.
  { pose proof (Rsum_exp_lower row c Hc). pose proof (exp_pos (nth c row 0%R)). lra. }
  assert (Rsum (map exp row) <= INR (length row) * exp M)%R as Hle.
  { rewrite <- (length_map exp row). apply Rsum_upper, Forall_map.
    eapply Forall_impl; [exact Hrow|]. intros v Hv. simpl.
    pose proof (Rle_abs v) as Hv'.
    assert (v <= M)%R as [Hlt|Heq] by lra.
    - left. now apply exp_increasing.
    - rewrite Heq. apply Rle_refl. }
  destruct Hle as [Hlt|Heq].
  - left. now apply ln_increasing.
  - right. now rewrite Heq.
Qed.

(** A mean over at least one position is a number between the bounds of the
    terms. *)
Lemma mean_nll_bounds (u : R) (kept : list (list R * Z)) :
  kept <> [] ->
  Forall (fun rt => (0 <= nll (fst rt) (Z.to_nat (snd rt)) <= u)%R) kept ->
  exists r, mean_nll kept = Real r /\ (0 <= r <= u)%R.
Proof.
  intros Hne Hall. destruct kept as [|rt kept]; [contradiction|].
  eexists. split; [reflexivity|].
  set (l := rt :: kept) in *.
  assert (0 < INR (length l))%R as Hn by (apply lt_0_INR; simpl; lia).
  assert (0 < / INR (length l))%R as Hinv by now apply Rinv_0_lt_compat.
  split.
  - apply Rmult_le_pos; [|lra].
    apply Rsum_nonneg, Forall_map. eapply Forall_impl; [exact Hall|]. simpl. tauto.
  - assert (Rsum (map (fun rt => nll (fst rt) (Z.to_nat (snd rt))) l)
            <= INR (length l) * u)%R as Hsum.
    { rewrite <- (length_map (fun rt => nll (fst rt) (Z.to_nat (snd rt))) l).
      apply Rsum_upper, Forall_map. eapply Forall_impl; [exact Hall|]. simpl. tauto. }
    apply Rmult_le_reg_l with (INR (length l)); [exact Hn|].
    unfold Rdiv. rewrite <- Rmult_assoc, Rinv_r_simpl_m by lra. exact Hsum.
Qed.

Lemma kept_positions_Forall (P : list R -> Prop) (rows : tensor2) (targets : list Z) :
  Forall P rows -> Forall (fun rt => P (fst rt)) (kept_positions rows targets).
Proof.
  intros Hrows. revert targets.
  induction Hrows as [|row rows Hrow _ IH]; intros targets; [constructor|].
  destruct targets as [|t targets]; [constructor|].
  rewrite kept_positions_cons. destruct (t =? -100)%Z; [apply IH|].
  constructor; [exact Hrow|apply IH].
Qed.

Lemma concat_map_map_Forall {A} (P : list R -> Prop) (f : A -> list R)
    (X : list (list A)) :
  (forall x, (exists row, row ∈ X /\ x ∈ row) -> P (f x)) ->
  Forall P (concat (map (map f) X)).
Proof.
  intros H. apply Forall_concat, Forall_map, Forall_forall. intros row Hrow. simpl.
  apply Forall_map, Forall_forall. intros x Hx. simpl. apply H. eauto.
Qed.


(** C5. With every supplied label equal to -100 (labels of the shape of the
    batch, a model with at least one label), the invocation returns as soon
    as the encoder does; no position enters the loss, which is the undefined
    value [nan] of a mean over nothing, whatever the logits are. *)
Theorem all_labels_ignored_returns_undefined_loss :
  encoder_shape_contract ->
  forall self draw keep ids mask tt labels kwargs c outputs c' (B L : nat),
    model_ok self = true ->
    num_labels self <> 0 ->
    has_shape2 B L ids = true ->
    has_shape2 B L labels = true ->
    Forall (fun t => t = (-100)%Z) (view_flat labels) ->
    RobertaModel_forward (roberta self) draw (Some ids) mask tt kwargs c
    = (Ok outputs, c') ->
    exists out,
      forward self draw keep (Some ids) mask tt (Some labels) kwargs c = (Ok out, c')
      /\ kept_positions (concat (TokenClassifierOutput.logits out)) (view_flat labels)
         = []
      /\ TokenClassifierOutput.loss out = Some NaN.
Proof.
  intros Henc self draw keep ids mask tt labels kwargs c outputs c' B L
         Hok H0 Hids Hlabels Hall Hrun.
  assert (length (view_flat labels) = B * L) as Hlen.
  { apply has_shape2_spec in Hlabels. destruct Hlabels as [<- HL].
    apply (length_concat_uniform L labels HL). }
  assert (labels_in_range (num_labels self) labels = true) as Hrange.
  { unfold labels_in_range. apply forallb_forall. intros t Ht.
    rewrite Forall_forall in Hall. rewrite (Hall t); [reflexivity|].
    now apply list_elem_of_In. }
  destruct (forward_labels_returns Henc self draw keep ids mask tt labels kwargs c
              outputs c' B L Hok Hids Hrun H0 Hlen Hrange) as (out & Hout & Hloss).
  exists out. split; [exact Hout|].
  pose proof (kept_positions_all_ignored
                (concat (TokenClassifierOutput.logits out)) _ Hall) as Hkept.
  split; [exact Hkept|]. now rewrite Hloss, Hkept.
Qed.

(** C6. Outside training, or with a zero dropout probability, the head draws
    nothing: two invocations on the same input with the same parameters,
    whatever the random draws of each, return the same outcome, and in
    particular the same logits, as soon as the encoder body is itself
    deterministic on that input. *)
Theorem forward_deterministic_without_dropout :
  forall self draw1 draw2 keep1 keep2 (input_ids : option itensor2) mask tt
         (labels : option itensor2) kwargs c,
    negb (training (dropout self)) || Qeq_bool (p (dropout self)) 0 = true ->
    RobertaModel_forward (roberta self) draw1 input_ids mask tt kwargs c
    = RobertaModel_forward (roberta self) draw2 input_ids mask tt kwargs c ->
    forward self draw1 keep1 input_ids mask tt labels kwargs c
    = forward self draw2 keep2 input_ids mask tt labels kwargs c
    /\ (forall out1 c1 out2 c2,
          forward self draw1 keep1 input_ids mask tt labels kwargs c = (Ok out1, c1) ->
          forward self draw2 keep2 input_ids mask tt labels kwargs c = (Ok out2, c2) ->
          TokenClassifierOutput.logits out1 = TokenClassifierOutput.logits out2).
Proof.
  intros self draw1 draw2 keep1 keep2 input_ids mask tt labels kwargs c Hoff Henc.
  assert (forward self draw1 keep1 input_ids mask tt labels kwargs c
          = forward self draw2 keep2 input_ids mask tt labels kwargs c) as Heq.
  { rewrite !forward_eq, Henc.
    destruct (RobertaModel_forward _ draw2 _ _ _ _ c) as [[outputs|e] c1];
      [|reflexivity].
    now rewrite !(Dropout_forward_off _ _ _ Hoff). }
  split; [exact Heq|].
  intros out1 c1 out2 c2 H1 H2. rewrite Heq, H2 in H1. now injection H1 as <- _.
Qed.

(** C7, as the code has it. The labels are flattened before they are compared
    with the logits: an invocation whose labels do not number one per token
    fails, and the error is the outcome of the invocation (a [ValueError] once
    the encoder has returned and the model has at least one label); labels
    that number one per token are not refused for being arranged in another
    shape. *)
Theorem label_count_mismatch_raises :
  encoder_shape_contract ->
  forall self draw keep ids mask tt labels kwargs c (B L : nat),
    model_ok self = true ->
    has_shape2 B L ids = true ->
    length (view_flat labels) <> B * L ->
    (exists e c',
        forward self draw keep (Some ids) mask tt (Some labels) kwargs c = (Raise e, c'))
    /\ (forall outputs c',
          RobertaModel_forward (roberta self) draw (Some ids) mask tt kwargs c
          = (Ok outputs, c') ->
          forward self draw keep (Some ids) mask tt (Some labels) kwargs c
          = (Raise (if num_labels self =? 0 then RuntimeError else ValueError), c')).
Proof.
  intros Henc self draw keep ids mask tt labels kwargs c B L Hok Hids Hlen.
  assert (forall outputs c',
             RobertaModel_forward (roberta self) draw (Some ids) mask tt kwargs c
             = (Ok outputs, c') ->
             forward self draw keep (Some ids) mask tt (Some labels) kwargs c
             = (Raise (if num_labels self =? 0 then RuntimeError else ValueError), c'))
    as Hraise.
  { intros outputs c' Hrun.
    pose proof (Henc _ _ _ _ _ _ _ _ _ _ _ Hrun Hids) as Hh.
    destruct (head_logits_shape self keep _ B L Hok Hh) as [Hlin Hlg].
    rewrite forward_eq, Hrun, Hlin.
    destruct (Nat.eqb_spec (num_labels self) 0) as [H0|H0].
    - rewrite H0. reflexivity.
    - rewrite (view_rows_ok _ _ _ _ Hlg H0).
      rewrite CrossEntropyLoss_forward_mismatch; [reflexivity|].
      apply concat_shape, has_shape2_spec in Hlg. destruct Hlg as [Hrows _].
      congruence. }
  split; [|exact Hraise].
  destruct (RobertaModel_forward (roberta self) draw (Some ids) mask tt kwargs c)
    as [[outputs|e] c'] eqn:Hrun.
  - eauto.
  - exists e, c'. now rewrite forward_eq, Hrun.
Qed.

End Claims.

(* ===================================================================== *)
(** * Properties of the benchmark overrides *)

Section BenchmarkClaims.
Import Benchmark.
Context {lib : BenchLib}.

Implicit Types (self : PerformanceBenchmark) (w : world).

(** The warm-up loop runs the pipeline [n] times and touches nothing else
    but the counter. *)
Lemma warmup_spec self (query : string) (n : nat) w :
  exists w',
    warmup self query n w = (Ok (), w')
    /\ files w' = files w
    /\ stdout w' = stdout w
    /\ runs w' = runs w ++ repeat query n.
Proof.
  revert w. induction n as [|n IH]; intros w.
  - exists w. simpl. now rewrite app_nil_r.
  - simpl. unfold mbind, W_bind, bindW, call_pipeline.
    destruct (IH {| files := files w; stdout := stdout w;
                    counter := (counter w + run_time (length (runs w)) query)%R;
                    runs := runs w ++ [query] |})
      as (w' & Hrun & Hfiles & Hout & Hruns).
    exists w'. rewrite Hrun. simpl in *.
    repeat split; try assumption.
    now rewrite Hruns, <- app_assoc.
Qed.

(** The timed loop runs the pipeline [n] times and appends, in order, the
    time each of these runs took. *)
Lemma timed_run_spec self (query : string) (n : nat) (latencies : list R) w :
  exists w',
    timed_run self query n latencies w
    = (Ok (latencies ++ map (fun k => run_time k query) (seq (length (runs w)) n)), w')
    /\ files w' = files w
    /\ stdout w' = stdout w
    /\ runs w' = runs w ++ repeat query n.
Proof.
  revert latencies w. induction n as [|n IH]; intros latencies w.
  - exists w. simpl. now rewrite !app_nil_r.
  - simpl. unfold mbind, W_bind, bindW, call_pipeline, perf_counter. simpl.
    replace (counter w + run_time (length (runs w)) query - counter w)%R
      with (run_time (length (runs w)) query) by ring.
    destruct (IH (latencies ++ [run_time (length (runs w)) query])
                 {| files := files w; stdout := stdout w;
                    counter := (counter w + run_time (length (runs w)) query)%R;
                    runs := runs w ++ [query] |})
      as (w' & Hrun & Hfiles & Hout & Hruns).
    exists w'. rewrite Hrun. simpl in *.
    rewrite length_app, Nat.add_1_r, <- app_assoc. simpl.
    repeat split; try assumption.
    now rewrite Hruns, <- app_assoc.
Qed.

(** C9. Every invocation of [time_pipeline] (the pipeline itself returning
    on every run) runs the pipeline 110 times on the query, 10 warm-up runs
    and then 100 timed runs, and returns the record whose two entries are the
    mean and the standard deviation, times 1000, of the 100 latencies of the
    timed runs, the latency of a run being the advance of the counter across
    it. *)
Theorem time_pipeline_runs_110_times_and_reports_mean_and_std :
  forall self (query : option string) w,
    let q := default default_query query in
    let latencies := map (fun k => run_time k q) (seq (length (runs w) + 10) 100) in
    exists w',
      time_pipeline self query w
      = (Ok (<[ "time_avg_ms"%string := (1000 * np_mean latencies)%R ]>
               {[ "time_std_ms"%string := (1000 * np_std latencies)%R ]}), w')
      /\ runs w' = runs w ++ repeat q 10 ++ repeat q 100
      /\ length (runs w') = length (runs w) + 110
      /\ length latencies = 100
      /\ files w' = files w
      /\ stdout w'
         = stdout w ++ [AverageLatencyLine (1000 * np_mean latencies)
                                           (1000 * np_std latencies)].
Proof.
  intros self query w q latencies.
  unfold time_pipeline. fold q.
  destruct (warmup_spec self q 10 w) as (w1 & Hwarm & Hfiles1 & Hout1 & Hruns1).
  destruct (timed_run_spec self q 100 [] w1) as (w2 & Htimed & Hfiles2 & Hout2 & Hruns2).
  unfold mbind, W_bind, bindW. rewrite Hwarm, Htimed.
  rewrite Hruns1, length_app, repeat_length in *. rewrite app_nil_l. fold latencies.
  unfold print, mret, W_ret, retW. eexists. split; [reflexivity|]. simpl.
  rewrite Hruns2, Hfiles2, Hfiles1, Hout2, Hout1, <- app_assoc.
  repeat split.
  rewrite !length_app, !repeat_length. lia.
Qed.

(** What [compute_size] returns and the world it leaves. *)
Lemma compute_size_spec self w :
  compute_size self w
  = (Ok {[ "size_mb"%string :=
             (INR (length (torch_save_bytes (state_dict (model (pipeline self)))))
              / (1024 * 1024))%R ]},
     {| files := delete "model.pt"%string (files w);
        stdout := stdout w
                  ++ [ModelSizeLine
                        (INR (length (torch_save_bytes
                                        (state_dict (model (pipeline self)))))
                         / (1024 * 1024))%R];
        counter := counter w;
        runs := runs w |}).
Proof.
  unfold compute_size, mbind, W_bind, bindW, torch_save, stat_st_size, unlink,
    print, mret, W_ret, retW.
  simpl. repeat (rewrite lookup_insert_eq; simpl).
  now rewrite delete_insert_eq.
Qed.

End BenchmarkClaims.

(* ===================================================================== *)
(** * The properties at work on the concrete encoder *)

Lemma logits_shape_B_L_num_labels_witness :
  exists out,
    @forward toy_lib toy_model () all_kept (Some toy_ids) (Some toy_mask) None None ()
      toy_config = (Ok out, toy_config)
    /\ TokenClassifierOutput.loss out = None
    /\ has_shape3 1 4 7 (TokenClassifierOutput.logits out) = true.
Proof.
  destruct (@logits_shape_B_L_num_labels toy_lib toy_encoder_shape toy_model ()
              all_kept toy_ids (Some toy_mask) None () toy_config 1 4
              eq_refl eq_refl) as (_ & Hreturns & _).
  exact (Hreturns _ _ eq_refl).
Defined.

Lemma logits_are_classifier_of_dropout_of_hidden_states_witness :
  exists out,
    @forward toy_lib toy_model () all_kept (Some toy_ids) (Some toy_mask) None None ()
      toy_config = (Ok out, toy_config)
    /\ token_at (TokenClassifierOutput.logits out) 0 2
       = Some (affine (classifier toy_model) (toy_vector 2)).
Proof.
  eexists. split; [reflexivity|].
  destruct (@logits_are_classifier_of_dropout_of_hidden_states toy_lib toy_model ()
              all_kept (Some toy_ids) (Some toy_mask) None None () toy_config _ _
              eq_refl) as (outputs & Hrun & _ & _ & Hinference).
  injection Hrun as <-.
  exact (Hinference eq_refl 0 2 (toy_vector 2) eq_refl).
Defined.

Lemma loss_is_mean_over_positions_not_ignored_witness :
  exists out r0 r1 r2 r3,
    @forward toy_lib toy_model () all_kept (Some toy_ids) (Some toy_mask) None
      (Some toy_labels) () toy_config = (Ok out, toy_config)
    /\ TokenClassifierOutput.logits out = [[r0; r1; r2; r3]]
    /\ TokenClassifierOutput.loss out = Some (Real ((nll r1 3 + nll r2 5) / 2)).
Proof.
  destruct (@loss_is_mean_over_positions_not_ignored toy_lib toy_encoder_shape
              toy_model () all_kept toy_ids (Some toy_mask) None toy_labels ()
              toy_config _ _ 1 4 eq_refl eq_refl eq_refl)
    as (_ & _ & Hscenario).
  destruct (Hscenario eq_refl eq_refl) as (r0 & r1 & r2 & r3 & Hlogits & Hloss).
  eexists. exists r0, r1, r2, r3. split; [reflexivity|]. split; assumption.
Defined.

(** C2 as stated fails: position 0 is ignored under the labels
    [-100, 3, 5, -100]; changing its label value to 0 changes the loss. *)
Lemma changing_an_ignored_label_changes_the_loss :
  exists out1 out2,
    @forward toy_lib toy_model () all_kept (Some toy_ids) (Some toy_mask) None
      (Some [[-100; 3; 5; -100]]%Z) () toy_config = (Ok out1, toy_config)
    /\ @forward toy_lib toy_model () all_kept (Some toy_ids) (Some toy_mask) None
         (Some [[0; 3; 5; -100]]%Z) () toy_config = (Ok out2, toy_config)
    /\ TokenClassifierOutput.loss out1 <> TokenClassifierOutput.loss out2.
Proof.
  eexists. eexists. split; [reflexivity|]. split; [reflexivity|].
  simpl. intros [= H]. revert H.
  unfold nll, log_softmax, dot, toy_vector. simpl.
  set (lse := ln _). lra.
Qed.



Lemma all_labels_ignored_returns_undefined_loss_witness :
  exists out,
    @forward toy_lib toy_model () all_kept (Some toy_ids) (Some toy_mask) None
      (Some [[-100; -100; -100; -100]]%Z) () toy_config = (Ok out, toy_config)
    /\ kept_positions (concat (TokenClassifierOutput.logits out))
         [-100; -100; -100; -100]%Z = []
    /\ TokenClassifierOutput.loss out = Some NaN.
Proof.
  eapply (@all_labels_ignored_returns_undefined_loss toy_lib toy_encoder_shape
            toy_model () all_kept toy_ids (Some toy_mask) None
            [[-100; -100; -100; -100]]%Z () toy_config _ toy_config 1 4 eq_refl).
  - discriminate.
  - reflexivity.
  - reflexivity.
  - simpl. repeat constructor.
  - reflexivity.
Defined.

Lemma forward_deterministic_without_dropout_witness :
  @forward toy_lib toy_model () all_kept (Some toy_ids) (Some toy_mask) None None ()
    toy_config
  = @forward toy_lib toy_model () none_kept (Some toy_ids) (Some toy_mask) None None ()
      toy_config.
Proof.
  exact (proj1 (@forward_deterministic_without_dropout toy_lib toy_model () ()
                  all_kept none_kept (Some toy_ids) (Some toy_mask) None None ()
                  toy_config eq_refl eq_refl)).
Defined.

Lemma label_count_mismatch_raises_witness :
  @forward toy_lib toy_model () all_kept (Some toy_ids) (Some toy_mask) None
    (Some [[3; 5]]%Z) () toy_config = (Raise ValueError, toy_config).
Proof.
  destruct (@label_count_mismatch_raises toy_lib toy_encoder_shape toy_model ()
              all_kept toy_ids (Some toy_mask) None [[3; 5]]%Z () toy_config 1 4
              eq_refl eq_refl) as (_ & Hraise).
  - simpl. lia.
  - exact (Hraise _ _ eq_refl).
Defined.

(** C7 as stated fails: labels of shape (2, 2) do not match the (1, 4) batch,
    and the invocation returns all the same. *)
Lemma mismatched_label_shape_is_accepted :
  has_shape2 1 4 [[3; 5]; [1; 2]]%Z = false
  /\ exists out,
       @forward toy_lib toy_model () all_kept (Some toy_ids) (Some toy_mask) None
         (Some [[3; 5]; [1; 2]]%Z) () toy_config = (Ok out, toy_config).
Proof.
  split; [reflexivity|]. eexists. reflexivity.
Qed.





(* ===================================================================== *)
(** * Properties of the corpus cells *)

Lemma prefix_iff_app (pre s : string) :
  String.prefix pre s = true <-> exists rest, s = (pre ++ rest)%string.
Proof.
  revert s. induction pre as [|a pre IH]; intros s.
  - split; [intros _; now exists s | intros _; now destruct s].
  - destruct s as [|b s]; simpl.
    + split; [discriminate | intros [rest H]; discriminate].
    + destruct (Ascii.ascii_dec a b) as [->|Hab].
      * split.
        -- intros H. apply IH in H. destruct H as [rest ->]. now exists rest.
        -- intros [rest H]. apply IH. exists rest. now injection H.
      * split; [discriminate|]. intros [rest H]. injection H as H1 H2. congruence.
Qed.

(** X1. The PAN-X subsets are exactly the configuration names that begin
    with "PAN", in the order of the full list; the three shown are the first
    three of them, or all of them when there are fewer. *)
Theorem panx_subsets_are_the_names_with_prefix_PAN :
  forall (xtreme_subsets : list string),
    (forall s, In s (PanX.panx_subsets xtreme_subsets)
               <-> In s xtreme_subsets /\ exists rest, s = ("PAN" ++ rest)%string)
    /\ sublist (PanX.panx_subsets xtreme_subsets) xtreme_subsets
    /\ length (PanX.slice_to 3 (PanX.panx_subsets xtreme_subsets))
       = Nat.min 3 (length (PanX.panx_subsets xtreme_subsets))
    /\ PanX.slice_to 3 (PanX.panx_subsets xtreme_subsets)
       `prefix_of` PanX.panx_subsets xtreme_subsets.
Proof.
  intros xs. unfold PanX.panx_subsets, PanX.slice_to, PanX.startswith.
  split; [|split; [|split]].
  - intros s. rewrite List.filter_In, prefix_iff_app. reflexivity.
  - induction xs as [|x xs IH]; simpl; [constructor|].
    destruct (String.prefix "PAN" x); now constructor.
  - apply length_firstn.
  - apply prefix_take.
Qed.

Section CorpusCells.
Import PanX.
Context {lib : DatasetsLib}.

Lemma mapR_app {A B} (f : A -> result B) (l k : list A) :
  mapR f (l ++ k)
  = match mapR f l with
    | Ok ys => match mapR f k with
               | Ok zs => Ok (ys ++ zs)
               | Raise e => Raise e
               end
    | Raise e => Raise e
    end.
Proof.
  induction l as [|x l IH]; simpl.
  - now destruct (mapR f k).
  - destruct (f x); [|reflexivity]. rewrite IH.
    destruct (mapR f l); [|reflexivity]. now destruct (mapR f k).
Qed.

(** Selecting a run of consecutive indices inside the dataset. *)
Lemma select_seq_ok (d : list Row) (i k : nat) :
  i + k <= length d ->
  select (seq i k) d = Ok (firstn k (skipn i d)).
Proof.
  unfold select. revert i. induction k as [|k IH]; intros i Hik; simpl.
  - reflexivity.
  - destruct (d !! i) as [row|] eqn:Hi.
    + rewrite IH by lia. now rewrite (drop_S _ _ _ Hi).
    + apply lookup_ge_None in Hi. lia.
Qed.

(** Selecting a run of consecutive indices that leaves the dataset. *)
Lemma select_seq_raise (d : list Row) (i k : nat) :
  i <= length d < i + k ->
  select (seq i k) d = Raise IndexError.
Proof.
  unfold select. revert i. induction k as [|k IH]; intros i Hik; simpl; [lia|].
  destruct (d !! i) as [row|] eqn:Hi; [|reflexivity].
  apply lookup_lt_Some in Hi. now rewrite IH by lia.
Qed.

Lemma int_of_nonneg (x : Q) :
  (0 <= x)%Q ->
  (0 <= int_of x)%Z
  /\ (inject_Z (int_of x) <= x)%Q
  /\ (x < inject_Z (int_of x) + 1)%Q.
Proof.
  intros Hx. unfold int_of. destruct x as [n m].
  assert (0 <= n)%Z as Hnum.
  { unfold Qle in Hx. simpl in *. lia. }
  simpl Qnum. simpl Qden. rewrite Z.quot_div_nonneg by lia.
  change (n `div` Z.pos m)%Z with (Qfloor (n # m)).
  split; [apply Z.div_pos; lia|]. split; [apply Qfloor_le|].
  pose proof (Qlt_floor (n # m)) as H. now rewrite inject_Z_plus in H.
Qed.

Lemma int_of_nonpos (x : Q) : (x <= 0)%Q -> (int_of x <= 0)%Z.
Proof.
  intros Hx. unfold int_of.
  assert (Qnum x <= 0)%Z as Hnum.
  { destruct x as [n m]. unfold Qle in Hx. simpl in *. lia. }
  rewrite <- (Z.opp_involutive (Qnum x)), Z.quot_opp_l by lia.
  assert (0 <= - Qnum x ÷ Z.pos (Qden x))%Z; [|lia].
  apply Z.quot_pos; lia.
Qed.

(** The number of rows kept for a proportion between 0 and 1. *)
Lemma kept_rows_bound (frac : Q) (n : nat) :
  (0 <= frac <= 1)%Q ->
  Z.to_nat (int_of (frac * inject_Z (Z.of_nat n))) <= n.
Proof.
  intros [H0 H1].
  assert (0 <= inject_Z (Z.of_nat n))%Q as Hn.
  { change 0%Q with (inject_Z 0). rewrite <- Zle_Qle. lia. }
  assert (0 <= frac * inject_Z (Z.of_nat n))%Q as Hpos by now apply Qmult_le_0_compat.
  destruct (int_of_nonneg _ Hpos) as (Hk0 & Hk & _).
  assert (frac * inject_Z (Z.of_nat n) <= inject_Z (Z.of_nat n))%Q as Hle.
  { rewrite <- (Qmult_1_l (inject_Z (Z.of_nat n))) at 2.
    now apply Qmult_le_compat_r. }
  pose proof (Qle_trans _ _ _ Hk Hle) as Hz. rewrite <- Zle_Qle in Hz. lia.
Qed.

Lemma downsample_ok (ds : dict (list Row)) (split : string) (frac : Q) (d : list Row) :
  shuffle_contract ->
  dict_get ds split = Some d ->
  (0 <= frac <= 1)%Q ->
  downsample ds split frac = Ok (downsampled frac d).
Proof.
  intros Hshuffle Hd Hfrac. unfold downsample, dict_getitem, downsampled, range.
  rewrite Hd. simpl. unfold num_rows.
  rewrite select_seq_ok; [reflexivity|].
  rewrite (Permutation_length (Hshuffle 0%Z d)). simpl.
  now apply kept_rows_bound.
Qed.

Lemma fracs_are_proportions (frac : Q) : In frac fracs -> (0 <= frac <= 1)%Q.
Proof.
  unfold fracs. simpl. intros [<-|[<-|[<-|[<-|[]]]]]; split; unfold Qle; simpl; lia.
Qed.

(** X2. For each of the four proportions of the notebook and a split of the
    corpus, the downsampling expression returns the first [k] rows of the
    shuffled split, where [k] is the integer part of the proportion times the
    number of rows: it has [k] rows, no more than the split, and every row it
    holds is a row of the split, no more often than there. *)
Theorem downsample_keeps_the_integer_part_of_the_proportion :
  shuffle_contract ->
  forall (ds : dict (list Row)) (split : string) (frac : Q) (d : list Row),
    dict_get ds split = Some d ->
    In frac fracs ->
    exists k,
      downsample ds split frac = Ok (firstn k (shuffle 0 d))
      /\ (inject_Z (Z.of_nat k) <= frac * inject_Z (num_rows d))%Q
      /\ (frac * inject_Z (num_rows d) < inject_Z (Z.of_nat k) + 1)%Q
      /\ length (firstn k (shuffle 0 d)) = k
      /\ k <= length d
      /\ firstn k (shuffle 0 d) ⊆+ d.
Proof.
  intros Hshuffle ds split frac d Hd Hin.
  pose proof (fracs_are_proportions frac Hin) as Hfrac.
  exists (Z.to_nat (int_of (frac * inject_Z (num_rows d)))).
  assert (0 <= frac * inject_Z (num_rows d))%Q as Hpos.
  { apply Qmult_le_0_compat; [tauto|]. unfold num_rows.
    change 0%Q with (inject_Z 0). rewrite <- Zle_Qle. lia. }
  destruct (int_of_nonneg _ Hpos) as (Hk0 & Hlo & Hhi).
  pose proof (kept_rows_bound frac (length d) Hfrac) as Hk.
  fold (num_rows d) in Hk.
  split; [exact (downsample_ok ds split frac d Hshuffle Hd Hfrac)|].
  rewrite Z2Nat.id by exact Hk0.
  split; [exact Hlo|]. split; [exact Hhi|]. split.
  - rewrite length_firstn, (Permutation_length (Hshuffle 0%Z d)). lia.
  - split; [exact Hk|].
    etransitivity; [apply submseteq_take|]. now rewrite (Hshuffle 0%Z d).
Qed.

(** X3. At the edges: a split that the corpus does not have is a
    [KeyError]; a proportion between -1 and 0 keeps no row and is no error; a
    proportion between 2 and 1000 on a split that has a row asks for rows past
    the end, which is an [IndexError]. *)
Theorem downsample_edge_cases :
  shuffle_contract ->
  forall (ds : dict (list Row)) (split : string) (frac : Q),
    (dict_get ds split = None ->
     downsample ds split frac = Raise (OtherError "KeyError"))
    /\ (forall d,
          dict_get ds split = Some d ->
          (-1 <= frac <= 0)%Q ->
          downsample ds split frac = Ok [])
    /\ (forall d,
          dict_get ds split = Some d ->
          d <> [] ->
          (2 <= frac <= 1000)%Q ->
          downsample ds split frac = Raise IndexError).
Proof.
  intros Hshuffle ds split frac. unfold downsample, dict_getitem.
  split; [now intros ->|]. split.
  - intros d Hd [_ Hfrac]. rewrite Hd. simpl. unfold range.
    assert (int_of (frac * inject_Z (num_rows d)) <= 0)%Z as Hk.
    { apply int_of_nonpos.
      assert (0 <= inject_Z (num_rows d))%Q as Hn.
      { unfold num_rows. change 0%Q with (inject_Z 0). rewrite <- Zle_Qle. lia. }
      eapply Qle_trans; [apply Qmult_le_compat_r; eassumption|].
      rewrite Qmult_0_l. apply Qle_refl. }
    destruct (int_of (frac * inject_Z (num_rows d))) as [|k|k]; [reflexivity| |reflexivity].
    exfalso. lia.
  - intros d Hd Hne [Hfrac _]. rewrite Hd. simpl. unfold range.
    apply select_seq_raise.
    rewrite (Permutation_length (Hshuffle 0%Z d)).
    assert (0 <= inject_Z (num_rows d))%Q as Hn.
    { unfold num_rows. change 0%Q with (inject_Z 0). rewrite <- Zle_Qle. lia. }
    assert (inject_Z (2 * num_rows d) <= frac * inject_Z (num_rows d))%Q as Hlow.
    { rewrite inject_Z_mult. now apply Qmult_le_compat_r. }
    assert (0 <= frac * inject_Z (num_rows d))%Q as Hpos.
    { eapply Qle_trans; [|exact Hlow]. change 0%Q with (inject_Z 0).
      rewrite <- Zle_Qle. unfold num_rows. lia. }
    destruct (int_of_nonneg _ Hpos) as (Hk0 & _ & Hhi).
    pose proof (Qle_lt_trans _ _ _ Hlow Hhi) as Hlt.
    change 1%Q with (inject_Z 1) in Hlt.
    rewrite <- inject_Z_plus, <- Zlt_Qlt in Hlt.
    assert (0 < length d) by (destruct d; [contradiction|simpl; lia]).
    unfold num_rows in *. lia.
Qed.

Lemma dict_get_set_eq {V} (d : dict V) (k : string) (v : V) :
  dict_get (dict_set d k v) k = Some v.
Proof.
  induction d as [|[k' v'] d IH]; simpl.
  - now rewrite String.eqb_refl.
  - destruct (String.eqb_spec k' k) as [->|Hk]; simpl.
    + now rewrite String.eqb_refl.
    + destruct (String.eqb_spec k' k); [contradiction|exact IH].
Qed.

Lemma dict_get_set_ne {V} (d : dict V) (k k' : string) (v : V) :
  k <> k' -> dict_get (dict_set d k v) k' = dict_get d k'.
Proof.
  intros Hne. induction d as [|[k0 v0] d IH]; simpl.
  - now destruct (String.eqb_spec k k').
  - destruct (String.eqb_spec k0 k) as [->|Hk]; simpl.
    + now destruct (String.eqb_spec k k').
    + destruct (String.eqb_spec k0 k'); [reflexivity|exact IH].
Qed.

Lemma dict_get_Some_keys {V} (d : dict V) (k : string) :
  k ∈ dict_keys d <-> is_Some (dict_get d k).
Proof.
  unfold dict_keys. induction d as [|[k' v'] d IH]; simpl.
  - split; [intros H; inversion H | intros [v H]; discriminate].
  - rewrite elem_of_cons, IH.
    destruct (String.eqb_spec k' k) as [->|Hk].
    + split; [eauto | now left].
    + split; [intros [->|H]; [contradiction|exact H] | now right].
Qed.

Lemma panx_lookup_insert (ch : panx) (lang : string) (dd : dict (list Row))
    (split : string) :
  panx_lookup (<[lang := dd]> ch) lang split = dict_get dd split.
Proof. unfold panx_lookup. now rewrite lookup_insert_eq. Qed.

Lemma panx_lookup_other (ch ch' : panx) (lang split : string) :
  ch' !! lang = ch !! lang -> panx_lookup ch' lang split = panx_lookup ch lang split.
Proof. unfold panx_lookup. now intros ->. Qed.

(** One assignment [panx_ch[lang][split] = v]. *)
Lemma panx_setitem_spec (lang split : string) (v : list Row) (ch : panx) :
  exists ch',
    panx_setitem lang split v ch = (Ok (), ch')
    /\ (forall l, l <> lang -> ch' !! l = ch !! l)
    /\ (forall s, panx_lookup ch' lang s
                  = if decide (s = split) then Some v else panx_lookup ch lang s).
Proof.
  unfold panx_setitem, mbind, P_bind, bindP, panx_getitem, panx_update.
  destruct (ch !! lang) as [dd|] eqn:Hlang; eexists; (split; [reflexivity|]); split.
  - intros l Hl. now rewrite lookup_insert_ne.
  - intros s. rewrite panx_lookup_insert. unfold panx_lookup. rewrite Hlang. cbn -[dict_get dict_set].
    destruct (decide (s = split)) as [->|Hs].
    + apply dict_get_set_eq.
    + apply dict_get_set_ne. congruence.
  - intros l Hl. now rewrite !lookup_insert_ne.
  - intros s. rewrite panx_lookup_insert. unfold panx_lookup. rewrite Hlang. cbn -[dict_get dict_set].
    destruct (decide (s = split)) as [->|Hs].
    + apply dict_get_set_eq.
    + rewrite dict_get_set_ne by congruence. reflexivity.
Qed.

(** The loop over the splits of one corpus. *)
Lemma for_splits_spec (lang : string) (frac : Q) (ds : dict (list Row))
    (splits : list string) (ch : panx) :
  shuffle_contract ->
  (0 <= frac <= 1)%Q ->
  (forall s, s ∈ splits -> is_Some (dict_get ds s)) ->
  exists ch',
    for_splits lang frac ds splits ch = (Ok (), ch')
    /\ (forall l, l <> lang -> ch' !! l = ch !! l)
    /\ (forall s, panx_lookup ch' lang s
                  = if decide (s ∈ splits) then downsampled frac <$> dict_get ds s
                    else panx_lookup ch lang s).
Proof.
  intros Hshuffle Hfrac. revert ch.
  induction splits as [|split splits IH]; intros ch Hkeys.
  - exists ch. split; [reflexivity|]. split; [reflexivity|].
    intros s. destruct (decide (s ∈ [])) as [H|_]; [inversion H|reflexivity].
  - destruct (Hkeys split) as [d Hd]; [now left|].
    destruct (panx_setitem_spec lang split (downsampled frac d) ch)
      as (ch1 & Hset & Hother1 & Hlang1).
    destruct (IH ch1) as (ch' & Hrun & Hother & Hlang).
    { intros s Hs. apply Hkeys. now right. }
    exists ch'. split; [|split].
    + simpl. unfold mbind, P_bind, bindP, liftP.
      rewrite (downsample_ok ds split frac d Hshuffle Hd Hfrac).
      unfold mbind, P_bind, bindP in Hset. now rewrite Hset.
    + intros l Hl. now rewrite Hother, Hother1.
    + intros s. rewrite Hlang, Hlang1.
      destruct (decide (s ∈ splits)) as [Hin|Hnin].
      * rewrite decide_True by now right. reflexivity.
      * destruct (decide (s = split)) as [->|Hne].
        -- rewrite decide_True by now left. now rewrite Hd.
        -- rewrite decide_False; [reflexivity|].
           intros H. apply elem_of_cons in H. tauto.
Qed.

(** The loop over the languages. *)
Lemma for_langs_spec (corpus : string -> dict (list Row))
    (pairs : list (string * Q)) (ch : panx) :
  shuffle_contract ->
  Forall (fun lf => (0 <= snd lf <= 1)%Q) pairs ->
  NoDup (map fst pairs) ->
  (forall lang frac, (lang, frac) ∈ pairs ->
     load_dataset "xtreme" ("PAN-X." ++ lang) = Ok (corpus lang)) ->
  exists ch',
    for_langs pairs ch = (Ok (), ch')
    /\ (forall l, l ∉ map fst pairs -> ch' !! l = ch !! l)
    /\ (forall lang frac s, (lang, frac) ∈ pairs ->
          panx_lookup ch' lang s
          = if decide (s ∈ dict_keys (corpus lang))
            then downsampled frac <$> dict_get (corpus lang) s
            else panx_lookup ch lang s).
Proof.
  intros Hshuffle Hfracs. revert ch.
  induction Hfracs as [|[lang0 frac0] pairs Hfrac0 Hfracs IH]; intros ch Hnodup Hload.
  - exists ch. split; [reflexivity|]. split; [reflexivity|].
    intros lang frac s H. inversion H.
  - simpl in Hnodup. apply NoDup_cons in Hnodup. destruct Hnodup as [Hfresh Hnodup].
    destruct (for_splits_spec lang0 frac0 (corpus lang0) (dict_keys (corpus lang0)) ch
                Hshuffle Hfrac0) as (ch1 & Hsplits & Hother1 & Hlang1).
    { intros s Hs. now apply dict_get_Some_keys. }
    destruct (IH ch1 Hnodup) as (ch' & Hrun & Hother & Hlang).
    { intros lang frac H. apply (Hload lang frac). now right. }
    exists ch'. split; [|split].
    + simpl. unfold mbind, P_bind, bindP, liftP.
      rewrite (Hload lang0 frac0) by now left.
      unfold mbind, P_bind, bindP in Hsplits. now rewrite Hsplits.
    + intros l Hl. simpl in Hl. rewrite not_elem_of_cons in Hl. destruct Hl as [Hl0 Hl].
      now rewrite Hother, Hother1.
    + intros lang frac s Hin. apply elem_of_cons in Hin.
      destruct Hin as [[= -> ->]|Hin].
      * rewrite (panx_lookup_other ch1 ch') by now apply Hother.
        apply Hlang1.
      * rewrite (Hlang lang frac s Hin).
        destruct (decide (s ∈ dict_keys (corpus lang))); [reflexivity|].
        apply panx_lookup_other, Hother1. intros ->. apply Hfresh.
        apply (list_elem_of_fmap_2 fst) in Hin. exact Hin.
Qed.

Lemma for_langs_app (pairs1 pairs2 : list (string * Q)) (ch : panx) :
  for_langs (pairs1 ++ pairs2) ch
  = match for_langs pairs1 ch with
    | (Ok _, ch1) => for_langs pairs2 ch1
    | (Raise e, ch1) => (Raise e, ch1)
    end.
Proof.
  revert ch. induction pairs1 as [|[lang frac] pairs1 IH]; intros ch; [reflexivity|].
  simpl. unfold mbind, P_bind, bindP, liftP.
  destruct (load_dataset _ _) as [ds|e]; [|reflexivity].
  destruct (for_splits lang frac ds (dict_keys ds) ch) as [[[]|e] ch0]; [|reflexivity].
  apply IH.
Qed.

(** The dictionary the cell builds. *)
Lemma build_panx_ch_spec (corpus : string -> dict (list Row)) (ch0 : panx) :
  shuffle_contract ->
  (forall lang, lang ∈ langs ->
     load_dataset "xtreme" ("PAN-X." ++ lang) = Ok (corpus lang)) ->
  exists ch',
    build_panx_ch ch0 = (Ok (), ch')
    /\ (forall l, l ∉ langs -> ch' !! l = None)
    /\ (forall lang frac s, (lang, frac) ∈ combine langs fracs ->
          panx_lookup ch' lang s = downsampled frac <$> dict_get (corpus lang) s).
Proof.
  intros Hshuffle Hload.
  destruct (for_langs_spec corpus (combine langs fracs) ∅ Hshuffle)
    as (ch' & Hrun & Hother & Hlang).
  - unfold langs, fracs. simpl. repeat constructor; simpl; unfold Qle; simpl; lia.
  - unfold langs, fracs. simpl. apply (bool_decide_unpack _). reflexivity.
  - intros lang frac Hin. apply Hload.
    apply (list_elem_of_fmap_2 fst) in Hin. exact Hin.
  - exists ch'. split; [exact Hrun|]. split.
    + intros l Hl. rewrite Hother by exact Hl. apply lookup_empty.
    + intros lang frac s Hin. rewrite (Hlang lang frac s Hin).
      destruct (decide (s ∈ dict_keys (corpus lang))) as [_|Hs]; [reflexivity|].
      rewrite dict_get_Some_keys in Hs. unfold panx_lookup.
      rewrite lookup_empty. simpl.
      destruct (dict_get (corpus lang) s); [|reflexivity].
      exfalso. apply Hs. eauto.
Qed.

(** X4. When the four corpora load, the cell builds a dictionary with no
    other language than the four, in which each split of each language is the
    split of that name of the language's corpus, shuffled and cut to the integer
    part of the language's proportion of its rows; a split the corpus does not
    have is not there. What [panx_ch] held before the cell is forgotten. *)
Theorem build_panx_ch_downsamples_every_split_of_every_language :
  shuffle_contract ->
  forall (corpus : string -> dict (list Row)) (ch0 : panx),
    (forall lang, lang ∈ langs ->
       load_dataset "xtreme" ("PAN-X." ++ lang) = Ok (corpus lang)) ->
    exists ch',
      build_panx_ch ch0 = (Ok (), ch')
      /\ (forall l, l ∉ langs -> ch' !! l = None)
      /\ (forall lang frac s, (lang, frac) ∈ combine langs fracs ->
            panx_lookup ch' lang s
            = (fun d => firstn (Z.to_nat (int_of (frac * inject_Z (num_rows d))))
                               (shuffle 0 d))
              <$> dict_get (corpus lang) s).
Proof.
  intros Hshuffle corpus ch0 Hload.
  exact (build_panx_ch_spec corpus ch0 Hshuffle Hload).
Qed.

(** X5. A corpus that fails to load stops the loop with the loader's error:
    the languages before it are in the dictionary as the loop left them, the
    languages after it are never reached. *)
Theorem for_langs_stops_at_the_first_corpus_that_fails_to_load :
  forall (pairs1 pairs2 : list (string * Q)) (lang : string) (frac : Q)
         (ch ch1 : panx) (e : exn),
    for_langs pairs1 ch = (Ok (), ch1) ->
    load_dataset "xtreme" ("PAN-X." ++ lang) = Raise e ->
    for_langs (pairs1 ++ (lang, frac) :: pairs2) ch = (Raise e, ch1).
Proof.
  intros pairs1 pairs2 lang frac ch ch1 e Hrun Hload.
  rewrite for_langs_app, Hrun. simpl. unfold mbind, P_bind, bindP, liftP.
  now rewrite Hload.
Qed.

Lemma num_rows_downsampled (frac : Q) (d : list Row) :
  shuffle_contract ->
  (0 <= frac <= 1)%Q ->
  num_rows (downsampled frac d) = int_of (frac * inject_Z (num_rows d)).
Proof.
  intros Hshuffle Hfrac. unfold downsampled, num_rows.
  pose proof (kept_rows_bound frac (length d) Hfrac) as Hk.
  assert (0 <= frac * inject_Z (Z.of_nat (length d)))%Q as Hpos.
  { apply Qmult_le_0_compat; [tauto|].
    change 0%Q with (inject_Z 0). rewrite <- Zle_Qle. lia. }
  destruct (int_of_nonneg _ Hpos) as (Hk0 & _).
  rewrite length_firstn, (Permutation_length (Hshuffle 0%Z d)). lia.
Qed.

(** One column of the table, for a language whose training split is there. *)
Lemma training_rows_step (lang : string) (ls : list string) (acc : dict (list Z))
    (ch : panx) (train : list Row) :
  panx_lookup ch lang "train" = Some train ->
  training_rows (lang :: ls) acc ch
  = training_rows ls (dict_set acc lang [num_rows train]) ch.
Proof.
  unfold panx_lookup. intros H. simpl.
  unfold mbind at 1 2, P_bind, bindP, panx_getitem, liftP, dict_getitem.
  destruct (ch !! lang) as [dd|]; [|discriminate]. simpl in H. now rewrite H.
Qed.

Lemma training_rows_app (ls1 ls2 : list string) (acc : dict (list Z)) (ch : panx) :
  (forall l, l ∈ ls1 -> is_Some (panx_lookup ch l "train")) ->
  exists acc', training_rows (ls1 ++ ls2) acc ch = training_rows ls2 acc' ch.
Proof.
  revert acc. induction ls1 as [|l ls1 IH]; intros acc Hall; [now exists acc|].
  destruct (Hall l) as [train Htrain]; [now left|].
  destruct (IH (dict_set acc l [num_rows train])) as [acc' Hrun].
  { intros l' Hl'. apply Hall. now right. }
  exists acc'. simpl app. now rewrite (training_rows_step _ _ _ _ _ Htrain).
Qed.

(** X6. After the cell has built the dictionary from four corpora that each
    have a training split, the table of training examples has one row and one
    column per language, in the order de, fr, it, en; the entry of a language
    is the integer part of its proportion of the rows of its corpus's training
    split; building the table leaves the dictionary as it is. *)
Theorem training_examples_table_after_build_panx_ch :
  shuffle_contract ->
  forall (corpus : string -> dict (list Row)) (train : string -> list Row) (ch0 : panx),
    (forall lang, lang ∈ langs ->
       load_dataset "xtreme" ("PAN-X." ++ lang) = Ok (corpus lang)) ->
    (forall lang, lang ∈ langs -> dict_get (corpus lang) "train" = Some (train lang)) ->
    exists ch',
      build_panx_ch ch0 = (Ok (), ch')
      /\ training_examples_table ch'
         = (Ok {| index := ["Number of training examples"%string];
                  columns :=
                    map (fun lf =>
                           (fst lf,
                            [int_of (snd lf * inject_Z (num_rows (train (fst lf))))]))
                        (combine langs fracs) |},
            ch').
Proof.
  intros Hshuffle corpus train ch0 Hload Htrain.
  destruct (build_panx_ch_spec corpus ch0 Hshuffle Hload) as (ch' & Hrun & _ & Hlang).
  exists ch'. split; [exact Hrun|].
  assert (forall lang frac, (lang, frac) ∈ combine langs fracs ->
            (0 <= frac <= 1)%Q ->
            exists d, panx_lookup ch' lang "train" = Some d
                      /\ num_rows d = int_of (frac * inject_Z (num_rows (train lang))))
    as Hcol.
  { intros lang frac Hin Hfrac. eexists. split.
    - rewrite (Hlang lang frac "train" Hin), Htrain; [reflexivity|].
      apply (list_elem_of_fmap_2 fst) in Hin. exact Hin.
    - now apply num_rows_downsampled. }
  unfold training_examples_table, langs, fracs in *. simpl combine in *.
  destruct (Hcol "de"%string (629 # 1000)%Q) as (d1 & H1 & N1);
    [set_solver | split; unfold Qle; simpl; lia |].
  destruct (Hcol "fr"%string (229 # 1000)%Q) as (d2 & H2 & N2);
    [set_solver | split; unfold Qle; simpl; lia |].
  destruct (Hcol "it"%string (84 # 1000)%Q) as (d3 & H3 & N3);
    [set_solver | split; unfold Qle; simpl; lia |].
  destruct (Hcol "en"%string (59 # 1000)%Q) as (d4 & H4 & N4);
    [set_solver | split; unfold Qle; simpl; lia |].
  unfold mbind at 1, P_bind, bindP.
  rewrite (training_rows_step _ _ _ _ _ H1), (training_rows_step _ _ _ _ _ H2),
    (training_rows_step _ _ _ _ _ H3), (training_rows_step _ _ _ _ _ H4).
  simpl. now rewrite N1, N2, N3, N4.
Qed.

(** X7. Building the table when a language is not in the dictionary (and
    the languages before it have their training split) is a [KeyError], and
    it leaves the language in the dictionary with no split; when the language
    is there without a training split it is a [KeyError] too, and the
    dictionary is as it was. *)
Theorem training_examples_table_on_a_missing_language :
  forall (ls1 ls2 : list string) (lang : string) (ch : panx),
    langs = ls1 ++ lang :: ls2 ->
    (forall l, l ∈ ls1 -> is_Some (panx_lookup ch l "train")) ->
    (ch !! lang = None ->
     training_examples_table ch = (Raise (OtherError "KeyError"), <[lang := []]> ch))
    /\ (forall dd,
          ch !! lang = Some dd ->
          dict_get dd "train" = None ->
          training_examples_table ch = (Raise (OtherError "KeyError"), ch)).
Proof.
  intros ls1 ls2 lang ch Hlangs Hall.
  destruct (training_rows_app ls1 (lang :: ls2) [] ch Hall) as [acc Hrun].
  unfold training_examples_table. rewrite Hlangs. split.
  - intros Hnone. unfold mbind, P_bind, bindP. rewrite Hrun. simpl.
    unfold mbind, P_bind, bindP, panx_getitem, liftP, dict_getitem.
    now rewrite Hnone.
  - intros dd Hsome Hdd. unfold mbind, P_bind, bindP. rewrite Hrun. simpl.
    unfold mbind, P_bind, bindP, panx_getitem, liftP, dict_getitem.
    now rewrite Hsome, Hdd.
Qed.

End CorpusCells.

(* ===================================================================== *)
(** * Construction and the error paths of the forward pass *)

Section ModelProperties.
Context {lib : RobertaLib}.

Implicit Types (self : XLMRobertaForTokenClassification) (draw : Draw)
  (keep : keep_mask) (kwargs : Kwargs) (c : XLMRobertaConfig)
  (ids labels : itensor2) (mask tt : option itensor2).

Lemma map_const_seq {A} (v : A) (n i : nat) :
  map (fun _ : nat => v) (seq i n) = repeat v n.
Proof.
  revert i. induction n as [|n IH]; intros i; simpl; [reflexivity|].
  f_equal. apply IH.
Qed.

(** X8. A model fresh from construction is in training mode, its head has a
    zero bias, and on a batch of [B] sequences of [L] tokens every returning
    invocation gives logits of shape (B, L, num_labels) for the label count
    of the configuration it was built from; the three attributes the model
    reads have, after the invocation, the values they had before
    construction. *)
Theorem fresh_model_logits_have_the_shape_the_configuration_announces :
  library_keeps_hyperparameters ->
  encoder_init_contract ->
  encoder_shape_contract ->
  forall (d : init_draws) c self c1,
    __init__ d c = (Ok self, c1) ->
    training (dropout self) = true
    /\ bias (classifier self) = repeat 0%R (config.num_labels c)
    /\ forall draw keep ids mask tt (labels : option itensor2) kwargs out c2 (B L : nat),
         has_shape2 B L ids = true ->
         forward self draw keep (Some ids) mask tt labels kwargs c1 = (Ok out, c2) ->
         has_shape3 B L (config.num_labels c) (TokenClassifierOutput.logits out) = true
         /\ same_hyperparameters c c2.
Proof.
  intros Hlib Hinit Henc d c self c1 H.
  destruct (init_model_ok d c self c1 Hlib Hinit H) as [Hok Hnum].
  destruct (init_inv d c self c1 Hlib H)
    as (Hsame & body & c0 & c0' & _ & _ & _ & _ & _ & Hdrop & Hcls).
  split; [now rewrite Hdrop|]. split.
  - rewrite Hcls. simpl. apply map_const_seq.
  - intros draw keep ids mask tt labels kwargs out c2 B L Hids Hfwd.
    split.
    + rewrite <- Hnum. eapply logits_shape_core; eassumption.
    + pose proof (forward_preserves (same_hyperparameters c) self draw keep (Some ids)
                    mask tt labels kwargs c1 (Hlib c) Hsame) as Hc.
      now rewrite Hfwd in Hc.
Qed.

Lemma mapR_raise {A B} (f : A -> result B) (l : list A) (x : A) (e : exn) :
  In x l ->
  f x = Raise e ->
  (forall y e', f y = Raise e' -> e' = e) ->
  mapR f l = Raise e.
Proof.
  intros Hin Hx Hall. induction l as [|y l IH]; [contradiction|]. simpl.
  destruct (f y) as [b|e'] eqn:Hy.
  - destruct Hin as [->|Hin]; [congruence|]. now rewrite (IH Hin).
  - now rewrite (Hall y e' Hy).
Qed.

(** The layer refuses a tensor that holds a vector of another width. *)
Lemma Linear_forward_raise (l : Linear) (x : tensor3) (b i : nat) (h : list R) :
  token_at x b i = Some h ->
  length h <> in_features l ->
  Linear_forward l x = Raise RuntimeError.
Proof.
  unfold token_at. intros Hh Hlen.
  destruct (x !! b) as [row|] eqn:Hb; [|discriminate]. simpl in Hh.
  assert (forall (y : list R) e', Linear_vec l y = Raise e' -> e' = RuntimeError) as Hvec.
  { intros y e'. unfold Linear_vec. destruct (length y =? in_features l); [discriminate|].
    now intros [= <-]. }
  assert (forall (r : list (list R)) e',
             mapR (Linear_vec l) r = Raise e' -> e' = RuntimeError) as Hrow.
  { intros r. induction r as [|y r IH]; intros e'; simpl; [discriminate|].
    destruct (Linear_vec l y) eqn:Hy.
    - destruct (mapR (Linear_vec l) r); [discriminate|]. intros [= <-]. now apply IH.
    - intros [= <-]. exact (Hvec _ _ Hy). }
  unfold Linear_forward.
  apply (mapR_raise _ x row); [| |exact Hrow].
  - apply list_elem_of_In. eapply list_elem_of_lookup_2. exact Hb.
  - apply (mapR_raise _ row h); [| |exact Hvec].
    + apply list_elem_of_In. eapply list_elem_of_lookup_2. exact Hh.
    + unfold Linear_vec. now destruct (Nat.eqb_spec (length h) (in_features l)).
Qed.

(** X10. The forward pass adds no recovery and no interpretation of its
    own: an error of the encoder body is the outcome of the invocation, as the
    encoder left it; a hidden vector whose width is not the input width of the
    classifier is a [RuntimeError]; and a returning invocation hands on the
    hidden states and attentions of the encoder output untouched. *)
Theorem forward_hands_on_encoder_errors_and_auxiliary_outputs :
  forall self draw keep (input_ids : option itensor2) mask tt
         (labels : option itensor2) kwargs c,
    (forall e c',
        RobertaModel_forward (roberta self) draw input_ids mask tt kwargs c
        = (Raise e, c') ->
        forward self draw keep input_ids mask tt labels kwargs c = (Raise e, c'))
    /\ (forall outputs c' b i h,
          RobertaModel_forward (roberta self) draw input_ids mask tt kwargs c
          = (Ok outputs, c') ->
          token_at (BaseModelOutput.last_hidden_state outputs) b i = Some h ->
          length h <> in_features (classifier self) ->
          forward self draw keep input_ids mask tt labels kwargs c
          = (Raise RuntimeError, c'))
    /\ (forall out c',
          forward self draw keep input_ids mask tt labels kwargs c = (Ok out, c') ->
          exists outputs,
            RobertaModel_forward (roberta self) draw input_ids mask tt kwargs c
            = (Ok outputs, c')
            /\ TokenClassifierOutput.hidden_states out
               = BaseModelOutput.hidden_states outputs
            /\ TokenClassifierOutput.attentions out
               = BaseModelOutput.attentions outputs).
Proof.
  intros self draw keep input_ids mask tt labels kwargs c. split; [|split].
  - intros e c' Hrun. now rewrite forward_eq, Hrun.
  - intros outputs c' b i h Hrun Hh Hlen. rewrite forward_eq, Hrun.
    rewrite (Linear_forward_raise _ _ b i (Dropout_vec (dropout self) keep b i h)).
    + reflexivity.
    + now apply Dropout_forward_token.
    + now rewrite Dropout_vec_length.
  - intros out c' H. apply forward_inv in H.
    destruct H as (outputs & Hrun & _ & _ & Hh & Ha & _). eauto.
Qed.

(** The reduction loop refuses a target outside the classes. *)
Lemma nll_accumulate_out_of_range (C : nat) (rows : tensor2) (targets : list Z)
    (t : Z) (acc : R * nat) :
  Forall (fun row => length row = C) rows ->
  length rows = length targets ->
  In t targets ->
  t <> (-100)%Z ->
  (t < 0 \/ Z.of_nat C <= t)%Z ->
  nll_accumulate (-100) rows targets acc = Raise IndexError.
Proof.
  intros Hrows. revert targets acc.
  induction Hrows as [|row rows Hrow _ IH]; intros targets acc Hlen Hin Ht Hout.
  - destruct targets; [contradiction|discriminate].
  - destruct targets as [|t0 targets]; [contradiction|]. simpl.
    destruct (Z.eqb_spec t0 (-100)) as [->|Ht0].
    + apply IH; [simpl in Hlen; lia| |assumption..].
      destruct Hin as [Heq|Hin]; [congruence|exact Hin].
    + rewrite Hrow.
      destruct ((0 <=? t0)%Z && (t0 <? Z.of_nat C)%Z) eqn:Hr; [|reflexivity].
      apply IH; [simpl in Hlen; lia| |assumption..].
      destruct Hin as [Heq|Hin]; [|exact Hin]. subst t0.
      apply andb_true_iff in Hr. destruct Hr as [H0 H1].
      apply Z.leb_le in H0. apply Z.ltb_lt in H1. lia.
Qed.

(** X11. A label that is neither -100 nor a class index (negative, or at
    least the label count) is an [IndexError]: with one label per token, a
    model with at least one label and an encoder that returns, the invocation
    raises it and returns no loss. *)
Theorem label_outside_the_classes_raises_IndexError :
  encoder_shape_contract ->
  forall self draw keep ids mask tt labels kwargs c outputs c' (B L : nat) (t : Z),
    model_ok self = true ->
    num_labels self <> 0 ->
    has_shape2 B L ids = true ->
    RobertaModel_forward (roberta self) draw (Some ids) mask tt kwargs c
    = (Ok outputs, c') ->
    length (view_flat labels) = B * L ->
    In t (view_flat labels) ->
    t <> (-100)%Z ->
    (t < 0 \/ Z.of_nat (num_labels self) <= t)%Z ->
    forward self draw keep (Some ids) mask tt (Some labels) kwargs c
    = (Raise IndexError, c').
Proof.
  intros Henc self draw keep ids mask tt labels kwargs c outputs c' B L t
         Hok H0 Hids Hrun Hlen Hin Ht Hout.
  pose proof (Henc _ _ _ _ _ _ _ _ _ _ _ Hrun Hids) as Hh.
  destruct (head_logits_shape self keep _ B L Hok Hh) as [Hlin Hlg].
  pose proof (concat_shape _ _ _ _ Hlg) as Hrows.
  apply has_shape2_spec in Hrows. destruct Hrows as [Hrows Hwidth].
  rewrite forward_eq, Hrun, Hlin, (view_rows_ok _ _ _ _ Hlg H0).
  unfold CrossEntropyLoss_forward. simpl ignore_index.
  rewrite Hrows, Hlen, Nat.eqb_refl.
  rewrite (nll_accumulate_out_of_range (num_labels self) _ _ t); try assumption.
  - reflexivity.
  - congruence.
Qed.
End ModelProperties.

(* ===================================================================== *)
(** * The benchmark, measured twice *)

Section BenchmarkProperties.
Import Benchmark.
Context {lib : BenchLib}.

Implicit Types (self : PerformanceBenchmark) (w : world).

End BenchmarkProperties.

(* ===================================================================== *)
(** * The corpus cells at work on the small dataset library *)

Lemma toy_shuffle_contract : @PanX.shuffle_contract toy_datasets.
Proof. intros seed d. simpl. symmetry. apply Permutation_rev. Qed.

Lemma toy_no_fr_shuffle_contract : @PanX.shuffle_contract toy_datasets_no_fr.
Proof. intros seed d. simpl. symmetry. apply Permutation_rev. Qed.

Lemma downsample_keeps_the_integer_part_of_the_proportion_witness :
  exists k,
    @PanX.downsample toy_datasets [("train"%string, seq 0 10)] "train" (629 # 1000)
    = Ok (firstn k (rev (seq 0 10)))
    /\ (inject_Z (Z.of_nat k) <= (629 # 1000) * inject_Z 10)%Q
    /\ ((629 # 1000) * inject_Z 10 < inject_Z (Z.of_nat k) + 1)%Q
    /\ length (firstn k (rev (seq 0 10))) = k
    /\ k <= 10
    /\ firstn k (rev (seq 0 10)) ⊆+ seq 0 10.
Proof.
  apply (@downsample_keeps_the_integer_part_of_the_proportion toy_datasets
           toy_shuffle_contract [("train"%string, seq 0 10)] "train" (629 # 1000)
           (seq 0 10) eq_refl).
  unfold PanX.fracs. simpl. tauto.
Defined.

Lemma downsample_edge_cases_witness :
  @PanX.downsample toy_datasets [("train"%string, seq 0 10)] "validation" (1 # 2)
  = Raise (OtherError "KeyError")
  /\ @PanX.downsample toy_datasets [("train"%string, seq 0 10)] "train" (- 1 # 2)
     = Ok []
  /\ @PanX.downsample toy_datasets [("train"%string, seq 0 10)] "train" 2
     = Raise IndexError.
Proof.
  destruct (@downsample_edge_cases toy_datasets toy_shuffle_contract
              [("train"%string, seq 0 10)] "validation" (1 # 2)) as (Hkey & _).
  destruct (@downsample_edge_cases toy_datasets toy_shuffle_contract
              [("train"%string, seq 0 10)] "train" (- 1 # 2)) as (_ & Hempty & _).
  destruct (@downsample_edge_cases toy_datasets toy_shuffle_contract
              [("train"%string, seq 0 10)] "train" 2) as (_ & _ & Hindex).
  split; [exact (Hkey eq_refl)|]. split.
  - apply (Hempty (seq 0 10) eq_refl). split; unfold Qle; simpl; lia.
  - apply (Hindex (seq 0 10) eq_refl); [discriminate|].
    split; unfold Qle; simpl; lia.
Defined.

Lemma build_panx_ch_downsamples_every_split_of_every_language_witness :
  exists ch',
    @PanX.build_panx_ch toy_datasets ∅ = (Ok (), ch')
    /\ @PanX.panx_lookup toy_datasets ch' "de" "train" = Some [9; 8; 7; 6; 5; 4]
    /\ @PanX.panx_lookup toy_datasets ch' "en" "test" = Some []
    /\ @PanX.panx_lookup toy_datasets ch' "de" "validation" = None.
Proof.
  destruct (@build_panx_ch_downsamples_every_split_of_every_language toy_datasets
              toy_shuffle_contract
              (fun _ => [("train"%string, seq 0 10); ("test"%string, seq 100 5)]) ∅)
    as (ch' & Hrun & _ & Hsplit).
  { intros lang _. reflexivity. }
  exists ch'. split; [exact Hrun|]. split; [|split].
  - rewrite (Hsplit "de"%string (629 # 1000)%Q); [reflexivity|].
    unfold PanX.langs, PanX.fracs. simpl. set_solver.
  - rewrite (Hsplit "en"%string (59 # 1000)%Q); [reflexivity|].
    unfold PanX.langs, PanX.fracs. simpl. set_solver.
  - rewrite (Hsplit "de"%string (629 # 1000)%Q); [reflexivity|].
    unfold PanX.langs, PanX.fracs. simpl. set_solver.
Defined.

Lemma for_langs_stops_at_the_first_corpus_that_fails_to_load_witness :
  @PanX.for_langs toy_datasets_no_fr
    ([("de"%string, 629 # 1000)] ++ ("fr"%string, 229 # 1000)
       :: [("it"%string, 84 # 1000); ("en"%string, 59 # 1000)]) ∅
  = (Raise (OtherError "ConnectionError"),
     {[ "de"%string := [("train"%string, [9; 8; 7; 6; 5; 4])] ]}).
Proof.
  apply (@for_langs_stops_at_the_first_corpus_that_fails_to_load toy_datasets_no_fr).
  - reflexivity.
  - reflexivity.
Defined.

Lemma training_examples_table_after_build_panx_ch_witness :
  exists ch',
    @PanX.build_panx_ch toy_datasets ∅ = (Ok (), ch')
    /\ @PanX.training_examples_table toy_datasets ch'
       = (Ok {| PanX.index := ["Number of training examples"%string];
                PanX.columns := [("de"%string, [6%Z]); ("fr"%string, [2%Z]);
                                 ("it"%string, [0%Z]); ("en"%string, [0%Z])] |},
          ch').
Proof.
  exact (@training_examples_table_after_build_panx_ch toy_datasets
           toy_shuffle_contract
           (fun _ => [("train"%string, seq 0 10); ("test"%string, seq 100 5)])
           (fun _ => seq 0 10) ∅
           (fun lang _ => eq_refl) (fun lang _ => eq_refl)).
Defined.

Lemma training_examples_table_on_a_missing_language_witness :
  @PanX.training_examples_table toy_datasets ∅
  = (Raise (OtherError "KeyError"), {[ "de"%string := [] ]}).
Proof.
  destruct (@training_examples_table_on_a_missing_language toy_datasets
              [] ["fr"; "it"; "en"]%string "de" ∅ eq_refl) as (Hmissing & _).
  - intros l Hl. inversion Hl.
  - exact (Hmissing (lookup_empty _)).
Defined.

(* ===================================================================== *)
(** * The model and benchmark properties at work on the concrete instances *)

Lemma fresh_model_logits_have_the_shape_the_configuration_announces_witness :
  training (dropout recording_model) = true
  /\ bias (classifier recording_model) = repeat 0%R 7
  /\ forall out c2,
       @forward recording_lib recording_model () all_kept (Some toy_ids)
         (Some toy_mask) None (Some toy_labels) () toy_config_recorded = (Ok out, c2) ->
       has_shape3 1 4 7 (TokenClassifierOutput.logits out) = true
       /\ same_hyperparameters toy_config c2.
Proof.
  destruct (@fresh_model_logits_have_the_shape_the_configuration_announces
              recording_lib recording_library_keeps_hyperparameters
              recording_encoder_init recording_encoder_shape recording_draws
              toy_config recording_model toy_config_recorded recording_init)
    as (Htraining & Hbias & Hshape).
  split; [exact Htraining|]. split; [exact Hbias|].
  intros out c2 H.
  exact (Hshape () all_kept toy_ids (Some toy_mask) None (Some toy_labels) () out c2
           1 4 eq_refl H).
Defined.

Lemma forward_hands_on_encoder_errors_and_auxiliary_outputs_witness :
  @forward toy_lib toy_model () all_kept None (Some toy_mask) None (Some toy_labels) ()
    toy_config = (Raise ValueError, toy_config).
Proof.
  destruct (@forward_hands_on_encoder_errors_and_auxiliary_outputs toy_lib toy_model ()
              all_kept None (Some toy_mask) None (Some toy_labels) () toy_config)
    as (Herror & _).
  exact (Herror ValueError toy_config eq_refl).
Defined.

Lemma label_outside_the_classes_raises_IndexError_witness :
  @forward toy_lib toy_model () all_kept (Some toy_ids) (Some toy_mask) None
    (Some [[-100; 3; 7; -100]]%Z) () toy_config = (Raise IndexError, toy_config).
Proof.
  eapply (@label_outside_the_classes_raises_IndexError toy_lib toy_encoder_shape
            toy_model () all_kept toy_ids (Some toy_mask) None
            [[-100; 3; 7; -100]]%Z () toy_config _ toy_config 1 4 7%Z eq_refl).
  - discriminate.
  - reflexivity.
  - reflexivity.
  - reflexivity.
  - simpl. tauto.
  - discriminate.
  - right. simpl. lia.
Defined.
